(** * docs_tester: code extraction and branch reconstruction

    A shallow embedding of [docs_tester.py].  Python [str] values are
    modelled as [string]; a character stands for a code point below 256.
    Python dictionaries are insertion ordered: they are modelled as
    association lists whose keys are pairwise distinct, an assignment to
    a present key keeping the key's position and an assignment to an
    absent key appending a new item.  Iteration order matters in the
    branch builder, because later writes to [new_branches] overwrite
    earlier ones. *)

From Stdlib Require Import String Ascii List Bool Arith NArith ZArith Lia.
Import ListNotations.
Open Scope string_scope.

(** ** Python strings *)

Module PyStr.

(** [str.isspace] on one character, for code points below 256: the
    ASCII controls 9-13 and 28-31, the space, NEL and the no-break space. *)
Definition isspace (c : ascii) : bool :=
  let n := N_of_ascii c in
  (((9 <=? n) && (n <=? 13)) || ((28 <=? n) && (n <=? 32))
   || (n =? 133) || (n =? 160))%N.

Fixpoint lstrip (s : string) : string :=
  match s with
  | EmptyString => EmptyString
  | String c r => if isspace c then lstrip r else s
  end.

Fixpoint rstrip (s : string) : string :=
  match s with
  | EmptyString => EmptyString
  | String c r =>
      match rstrip r with
      | EmptyString => if isspace c then EmptyString else String c EmptyString
      | r' => String c r'
      end
  end.

(** [s.strip()] *)
Definition strip (s : string) : string := rstrip (lstrip s).

(** [sep.join(l)] *)
Fixpoint join (sep : string) (l : list string) : string :=
  match l with
  | [] => EmptyString
  | [x] => x
  | x :: xs => x ++ sep ++ join sep xs
  end.

(** Truth value of a string: [if s:] holds for the non-empty ones. *)
Definition truthy (s : string) : bool :=
  match s with EmptyString => false | String _ _ => true end.

(** [str.lower] on one character, for code points below 256. *)
Definition lower_char (c : ascii) : ascii :=
  let n := N_of_ascii c in
  if (((65 <=? n) && (n <=? 90))
      || ((192 <=? n) && (n <=? 222) && negb (n =? 215)))%N
  then ascii_of_N (n + 32) else c.

Fixpoint lower (s : string) : string :=
  match s with
  | EmptyString => EmptyString
  | String c r => String (lower_char c) (lower r)
  end.

(** The blank-line separator ["\n\n"]. *)
Definition nl2 : string := String "010" (String "010" EmptyString).

End PyStr.
Import PyStr.

(** ** Python dictionaries, in insertion order *)

Definition dict (V : Type) : Type := list (string * V).

Section Dict.
Context {V : Type}.

(** [d.get(k)] *)
Fixpoint dict_get (k : string) (d : dict V) : option V :=
  match d with
  | [] => None
  | (k', v) :: r => if k' =? k then Some v else dict_get k r
  end.

(** [k in d] *)
Definition dict_mem (k : string) (d : dict V) : bool :=
  match dict_get k d with Some _ => true | None => false end.

(** [d[k] = v] *)
Fixpoint dict_set (k : string) (v : V) (d : dict V) : dict V :=
  match d with
  | [] => [(k, v)]
  | (k', v') :: r =>
      if k' =? k then (k', v) :: r else (k', v') :: dict_set k v r
  end.

Definition keys (d : dict V) : list string := map fst d.

End Dict.

(** ** The document model produced by [extract_steps] *)

Record step : Type := mkStep {
  title : string;
  common_code : dict (list string);
  tabs : dict (dict (list string))
}.

(** ** Python sets of strings

    The layout of a [set] of strings depends on [str.__hash__], which
    CPython seeds afresh in every interpreter process.  The model keeps
    the elements in hash order, the hash being a parameter. *)

Definition pyset : Type := list string.

Definition pyset_empty : pyset := [].

Fixpoint pyset_mem (x : string) (s : pyset) : bool :=
  match s with
  | [] => false
  | y :: r => (y =? x) || pyset_mem x r
  end.

Section PySet.
Variable str_hash : string -> N.

Fixpoint pyset_insert (x : string) (s : pyset) : pyset :=
  match s with
  | [] => [x]
  | y :: r =>
      if (str_hash x <=? str_hash y)%N then x :: s
      else y :: pyset_insert x r
  end.

(** [s.add(x)] *)
Definition pyset_add (x : string) (s : pyset) : pyset :=
  if pyset_mem x s then s else pyset_insert x s.

End PySet.

(** ** The branch builder: [build_branches_for_language] *)

Section BranchBuilder.
Variable str_hash : string -> N.

(** [common_list = step["common_code"].get(lang, [])] and
    [combined_common = "\n\n".join(common_list).strip()]. *)
Definition common_list (lang : string) (s : step) : list string :=
  match dict_get lang (common_code s) with
  | Some l => l
  | None => []
  end.

Definition combined_common (lang : string) (s : step) : string :=
  strip (join nl2 (common_list lang s)).

(** The loop that collects [valid_tabs]: the tabs that have a non-empty
    snippet list for [lang], each with its joined and stripped code. *)
Definition valid_tabs_add (lang : string) (valid : dict string)
    (tab : string * dict (list string)) : dict string :=
  let '(ttitle, lang_map) := tab in
  match dict_get lang lang_map with
  | Some snippets =>
      match snippets with
      | [] => valid
      | _ :: _ => dict_set ttitle (strip (join nl2 snippets)) valid
      end
  | None => valid
  end.

Definition valid_tabs (lang : string) (s : step) : dict string :=
  fold_left (valid_tabs_add lang) (tabs s) [].

(** [for branch in current:
       current[branch] = (current[branch] + "\n\n" + combined_common).strip()],
    run only when [combined_common] is non-empty. *)
Definition append_common (cc : string) (current : dict string) : dict string :=
  if truthy cc then
    map (fun bc => (fst bc, strip (snd bc ++ nl2 ++ cc))) current
  else current.

(** What [append_common] does to the code of one branch. *)
Definition add_common (cc : string) (code : string) : string :=
  if truthy cc then strip (code ++ nl2 ++ cc) else code.

(** The state of the reconciliation loops: [new_branches] and
    [used_tab_titles]. *)
Definition recon : Type := (dict string * pyset)%type.

(** Body of the inner loop [for ttitle, tcode in valid_tabs.items()]. *)
Definition tab_body (branch code_so_far : string) (st : recon)
    (tab : string * string) : recon :=
  let '(new_branches, used_tab_titles) := st in
  let '(ttitle, tcode) := tab in
  if ttitle =? branch then
    (dict_set ttitle (strip (code_so_far ++ nl2 ++ tcode)) new_branches,
     pyset_add str_hash ttitle used_tab_titles)
  else if branch =? "" then
    (dict_set ttitle
       (strip (code_so_far ++ (if truthy tcode then nl2 ++ tcode else "")))
       new_branches,
     pyset_add str_hash ttitle used_tab_titles)
  else if dict_mem branch new_branches then st
  else (dict_set branch code_so_far new_branches, used_tab_titles).

(** Body of the outer loop [for branch, code_so_far in current.items()]. *)
Definition branch_body (valid : dict string) (st : recon)
    (bc : string * string) : recon :=
  fold_left (tab_body (fst bc) (snd bc)) valid st.

(** Body of the last loop: a tab not yet represented starts a branch. *)
Definition fresh_body (cc : string) (used_tab_titles : pyset)
    (new_branches : dict string) (tab : string * string) : dict string :=
  let '(ttitle, tcode) := tab in
  if negb (pyset_mem ttitle used_tab_titles) then
    dict_set ttitle
      (if truthy cc then strip (cc ++ nl2 ++ tcode) else tcode) new_branches
  else new_branches.

Definition reconcile (cc : string) (valid current : dict string)
    : dict string :=
  let '(new_branches, used_tab_titles) :=
    fold_left (branch_body valid) current ([], pyset_empty) in
  fold_left (fresh_body cc used_tab_titles) valid new_branches.

(** One iteration of [for step in steps]. *)
Definition process_step (lang : string) (current : dict string) (s : step)
    : dict string :=
  let cc := combined_common lang s in
  let valid := valid_tabs lang s in
  match valid with
  | [] => append_common cc current
  | _ :: _ => reconcile cc valid (append_common cc current)
  end.

(** [current = {"": ""}] *)
Definition initial_branches : dict string := [("", "")].

(** The mapping [current] after the steps of a prefix of the document. *)
Definition branches_after (lang : string) (steps : list step) : dict string :=
  fold_left (process_step lang) steps initial_branches.

Definition build_branches_for_language (steps : list step) (lang : string)
    : dict string :=
  map (fun bc => (fst bc, strip (snd bc))) (branches_after lang steps).

End BranchBuilder.

(** ** The step container: [extract_steps_section] *)

(** [s.startswith(p)], giving what follows the prefix. *)
Fixpoint strip_prefix (p s : string) : option string :=
  match p with
  | EmptyString => Some s
  | String a p' =>
      match s with
      | EmptyString => None
      | String b s' => if Ascii.eqb a b then strip_prefix p' s' else None
      end
  end.

(** The part [(.*?)close] of a pattern under [re.DOTALL], matched at the
    start of [s]: the group takes as few characters as it can, one more
    at each failure of [close]. *)
Fixpoint match_lazy_until (close s : string) : option string :=
  match strip_prefix close s with
  | Some _ => Some EmptyString
  | None =>
      match s with
      | EmptyString => None
      | String c s' => option_map (String c) (match_lazy_until close s')
      end
  end.

(** [re.search] for the pattern [open(.*?)close] under [re.DOTALL]: the
    match is tried at each position from the left, and the result is
    the group of the first position where it succeeds. *)
Fixpoint re_search_span (open close s : string) : option string :=
  match
    match strip_prefix open s with
    | Some r => match_lazy_until close r
    | None => None
    end
  with
  | Some g => Some g
  | None =>
      match s with
      | EmptyString => None
      | String _ s' => re_search_span open close s'
      end
  end.

Definition steps_open : string := "<Steps>".
Definition steps_close : string := "</Steps>".

Definition extract_steps_section (content : string) : string :=
  match re_search_span steps_open steps_close content with
  | Some g => g
  | None => EmptyString
  end.

(** [s.partition(p)]: the text before and the text after the first
    occurrence of [p] in [s], if there is one. *)
Fixpoint str_partition (p s : string) : option (string * string) :=
  match strip_prefix p s with
  | Some r => Some (EmptyString, r)
  | None =>
      match s with
      | EmptyString => None
      | String c s' =>
          match str_partition p s' with
          | Some (a, b) => Some (String c a, b)
          | None => None
          end
      end
  end.

(** ** The language table *)

Record lang_config : Type := mkConfig {
  ext : string;
  exec_cmd : list string
}.

Definition LANGUAGE_CONFIG : dict lang_config :=
  [("python", mkConfig ".py" ["python"]);
   ("javascript", mkConfig ".js" ["node"]);
   ("bash", mkConfig ".sh" ["bash"])].

(** ** The code-block extractor: [extract_code_blocks_into]

    The matches of [code_block_pattern] in a text are taken from the
    regular expression engine, each as its two groups: the language tag
    of the opening fence, if the fence has one, and the text between
    the fences.  [textwrap.dedent] is a parameter as well. *)

Definition fence_match : Type := (option string * string)%type.

(** [code_map.setdefault(lang, []).append(code)] *)
Definition setdefault_append (lang code : string)
    (code_map : dict (list string)) : dict (list string) :=
  match dict_get lang code_map with
  | Some snippets => dict_set lang (snippets ++ [code])%list code_map
  | None => dict_set lang [code] code_map
  end.

Section Extractor.
Variable finditer_code_blocks : string -> list fence_match.
Variable dedent : string -> string.

(** Body of the loop [for match in code_block_pattern.finditer(text)]. *)
Definition extract_block (code_map : dict (list string)) (m : fence_match)
    : dict (list string) :=
  let code := strip (dedent (snd m)) in
  match fst m with
  | None => code_map
  | Some tag =>
      if negb (truthy tag) then code_map
      else
        let lang := lower tag in
        if dict_mem lang LANGUAGE_CONFIG
        then setdefault_append lang code code_map
        else code_map
  end.

Definition extract_code_blocks_into (text : string)
    (code_map : dict (list string)) : dict (list string) :=
  fold_left extract_block (finditer_code_blocks text) code_map.

End Extractor.

(** The snippets a code map holds for a language. *)
Definition snippets_of (lang : string) (code_map : dict (list string))
    : list string :=
  match dict_get lang code_map with Some l => l | None => [] end.

(** A match is attributed when its fence has a tag whose lower-cased
    form is a language of the table. *)
Definition attributed (m : fence_match) : bool :=
  match fst m with
  | None => false
  | Some tag => truthy tag && dict_mem (lower tag) LANGUAGE_CONFIG
  end.

(** A match is attributed to [lang] when moreover that form is [lang]. *)
Definition attributed_to (lang : string) (m : fence_match) : bool :=
  match fst m with
  | None => false
  | Some tag =>
      truthy tag && dict_mem (lower tag) LANGUAGE_CONFIG && (lower tag =? lang)
  end.

(** ** The executor: [execute_code_file]

    [subprocess.run] is the one action of the function.  The function
    is modelled as the request it makes, the command and the [timeout]
    argument, and what it does with each way the call can end: its two
    handlers catch [subprocess.TimeoutExpired] and [Exception], and
    nothing else. *)

(** How a call of [subprocess.run] ends: the process completes, the
    timeout expires (the exception carries the output read so far, or
    [None]), another exception of the class [Exception] is raised, or
    an exception outside that class is raised, such as
    [KeyboardInterrupt] or [SystemExit]. *)
Inductive run_outcome : Type :=
| Completed (stdout stderr : string) (returncode : Z)
| TimeoutExpired (stdout : option string) (message : string)
| OtherException (message : string)
| NotAnException (exception : string).

Record exec_result : Type := mkResult {
  output : string;
  error : string;
  exit_code : Z
}.

(** A Python computation returns a value or raises. *)
Inductive py_result (A : Type) : Type :=
| Returned (a : A)
| Raised (exception : string).
Arguments Returned {A} a.
Arguments Raised {A} exception.

(** A function that calls [subprocess.run] at most once. *)
Inductive run_program (A : Type) : Type :=
| Finished (r : py_result A)
| SubprocessRun (cmd : list string) (timeout : option Z)
    (handler : run_outcome -> py_result A).
Arguments Finished {A} r.
Arguments SubprocessRun {A} cmd timeout handler.

(** [e.stdout or ""] *)
Definition stdout_or_empty (stdout : option string) : string :=
  match stdout with
  | Some s => if truthy s then s else ""
  | None => ""
  end.

Definition execute_code_file (file_path lang : string)
    : run_program exec_result :=
  match dict_get lang LANGUAGE_CONFIG with
  | None => Finished (Raised "KeyError")
  | Some config =>
      let cmd := (exec_cmd config ++ [file_path])%list in
      let timeout := if lang =? "bash" then None else Some 30%Z in
      SubprocessRun cmd timeout
        (fun outcome =>
           match outcome with
           | Completed stdout stderr returncode =>
               Returned (mkResult (strip stdout) (strip stderr) returncode)
           | TimeoutExpired stdout message =>
               Returned (mkResult (stdout_or_empty stdout)
                           ("Command timed out: " ++ message) (-1)%Z)
           | OtherException message =>
               Returned (mkResult "" message (-1)%Z)
           | NotAnException exception => Raised exception
           end)
  end.

(** Running a program against a way for the subprocess to behave. *)
Definition run_with {A : Type}
    (subprocess_run : list string -> option Z -> run_outcome)
    (p : run_program A) : py_result A :=
  match p with
  | Finished r => r
  | SubprocessRun cmd timeout handler => handler (subprocess_run cmd timeout)
  end.

(** ** Notions used in the statements *)

Definition nonempty {A : Type} (l : list A) : bool :=
  match l with [] => false | _ :: _ => true end.

(** The titles that [extract_steps] gives to tabs are never empty: its
    pattern for the title attribute asks for one character at least,
    and a tab without title is called untitled_tab. *)
Definition tabs_titled (steps : list step) : bool :=
  forallb (fun s => forallb (fun t => negb (t =? "")) (keys (tabs s))) steps.

(** The blocks the extractor yields, empty fences apart: not empty, and
    with no white space at either end. *)
Definition clean_block (b : string) : Prop := strip b = b /\ b <> "".

(** The common code blocks of a language over the whole document, in
    step order. *)
Definition all_common_blocks (lang : string) (steps : list step)
    : list string :=
  concat (map (common_list lang) steps).

(** [a], then a blank line and [b] when there is a [b]. *)
Definition glue (a b : string) : string :=
  if truthy b then a ++ nl2 ++ b else a.

(** Two sets with the same elements, and two states of the
    reconciliation loops that differ in the layout of the set at most. *)
Definition same_members (u1 u2 : pyset) : Prop :=
  forall x, pyset_mem x u1 = pyset_mem x u2.

Definition recon_agree (st1 st2 : recon) : Prop :=
  fst st1 = fst st2 /\ same_members (snd st1) (snd st2).

(** ** Example documents *)

(** A hash to evaluate examples with. *)
Definition hash0 : string -> N := fun _ => 0%N.

(** The double quote character, as a one-character string. *)
Definition dq : string := String "034" EmptyString.

Definition py_print (s : string) : string := "print(" ++ dq ++ s ++ dq ++ ")".

(** Step 1 has only the common code [print("start")]; step 2 has the
    tabs Linux and Mac. *)
Definition ex_step1 (lang : string) : step :=
  mkStep "Step 1" [(lang, [py_print "start"])] [].

Definition ex_step2 (lang : string) : step :=
  mkStep "Step 2" []
    [("Linux", [(lang, [py_print "linux"])]);
     ("Mac", [(lang, [py_print "mac"])])].

Definition ex_document (lang : string) : list step :=
  [ex_step1 lang; ex_step2 lang].

(** One more step for the example document: common code for every
    branch, and a tab for Linux alone. *)
Definition ex_step_linux_only : step :=
  mkStep "Step 3" [("python", [py_print "check"])]
    [("Linux", [("python", [py_print "apt"])])].

(** A step that offers the tab Windows with common code, met by a
    mapping that holds the branch Linux only. *)
Definition ex_step_windows : step :=
  mkStep "Step 3" [("python", [py_print "setup"])]
    [("Windows", [("python", [py_print "windows"])])].



(** Three steps without tabs; the block of the second one is empty, as
    the extractor gives it for a fence with nothing inside. *)
Definition ex_blank_steps : list step :=
  [mkStep "Step 1" [("python", ["a"])] [];
   mkStep "Step 2" [("python", [""])] [];
   mkStep "Step 3" [("python", ["b"])] []].

(** Three steps without tabs, with blocks that are not empty. *)
Definition ex_plain_steps : list step :=
  [mkStep "Step 1" [("python", [py_print "start"; py_print "more"])] [];
   mkStep "Step 2" [("bash", ["ls"])] [];
   mkStep "Step 3" [("python", [py_print "end"])] []].

(** ** The step parser: [extract_steps]

    The patterns of the parser are read as the regular expression
    engine reads them, each by a scanner of its own: a match is tried at
    each position from the left, and after a match the scan goes on
    where the match ends. *)

(** [\w] on one character, for code points below 256: letters, digits
    and the underscore. *)
Definition is_word_char (c : ascii) : bool :=
  let n := N_of_ascii c in
  (((48 <=? n) && (n <=? 57)) || ((65 <=? n) && (n <=? 90)) || (n =? 95)
   || ((97 <=? n) && (n <=? 122))
   || (n =? 170) || (n =? 178) || (n =? 179) || (n =? 181) || (n =? 185)
   || (n =? 186) || ((188 <=? n) && (n <=? 190))
   || ((192 <=? n) && (n <=? 214)) || ((216 <=? n) && (n <=? 246))
   || (248 <=? n))%N.

(** The pattern of the title attribute matched at the start of [s]: the
    word title, an equals sign with optional white space on either
    side, a quote, the group, and a quote.  The group is the run of
    characters up to the next quote, and it has one character at
    least. *)
Definition match_title_here (s : string) : option string :=
  match strip_prefix "title" s with
  | None => None
  | Some r1 =>
      match strip_prefix "=" (lstrip r1) with
      | None => None
      | Some r2 =>
          match strip_prefix dq (lstrip r2) with
          | None => None
          | Some r3 =>
              match str_partition dq r3 with
              | Some (String c g, _) => Some (String c g)
              | _ => None
              end
          end
      end
  end.

(** [re.search] for that pattern: the group of the leftmost match. *)
Fixpoint re_search_title (s : string) : option string :=
  match match_title_here s with
  | Some t => Some t
  | None =>
      match s with
      | EmptyString => None
      | String _ s' => re_search_title s'
      end
  end.

(** [title_match.group(1) if title_match else default] *)
Definition attr_title (attrs default : string) : string :=
  match re_search_title attrs with
  | Some t => t
  | None => default
  end.

(** The pattern of a step or of a tab under [re.DOTALL], matched at the
    start of [s]: [tag_open], a word boundary, the attributes up to the
    next closing angle bracket, and the body up to the next
    [tag_close].  [tag_open] ends in a letter, so the boundary asks for
    a character after it that is no word character.  The result is the
    two groups and the length of the match. *)
Definition match_tag_here (tag_open tag_close s : string)
    : option (string * string * nat) :=
  match strip_prefix tag_open s with
  | None => None
  | Some r =>
      match r with
      | EmptyString => None
      | String c _ =>
          if is_word_char c then None
          else
            match str_partition ">" r with
            | None => None
            | Some (attrs, r2) =>
                match str_partition tag_close r2 with
                | None => None
                | Some (body, _) =>
                    Some (attrs, body,
                          String.length tag_open + String.length attrs + 1
                          + String.length body + String.length tag_close)
                end
            end
      end
  end.

(** [pattern.finditer(s)] for that pattern, as the groups of the
    matches in order; [skip] counts the characters of the last match
    that are still to be passed. *)
Fixpoint finditer_tag (tag_open tag_close : string) (skip : nat) (s : string)
    : list (string * string) :=
  match s with
  | EmptyString => []
  | String _ s' =>
      match skip with
      | S k => finditer_tag tag_open tag_close k s'
      | O =>
          match match_tag_here tag_open tag_close s with
          | Some (attrs, body, len) =>
              (attrs, body) :: finditer_tag tag_open tag_close (len - 1) s'
          | None => finditer_tag tag_open tag_close 0 s'
          end
      end
  end.

(** The occurrences of a non-empty [old] taken out of [s], from the
    left and without overlap. *)
Fixpoint remove_all (old : string) (skip : nat) (s : string) : string :=
  match s with
  | EmptyString => EmptyString
  | String c s' =>
      match skip with
      | S k => remove_all old k s'
      | O =>
          match strip_prefix old s with
          | Some _ => remove_all old (String.length old - 1) s'
          | None => String c (remove_all old 0 s')
          end
      end
  end.

(** [s.replace(old, "")] *)
Definition str_remove (old s : string) : string :=
  if truthy old then remove_all old 0 s else s.

Definition tabs_open : string := "<Tabs>".
Definition tabs_close : string := "</Tabs>".

Section StepParser.
Variable finditer_code_blocks : string -> list fence_match.
Variable dedent : string -> string.

(** Body of the loop [for tmatch in tab_pattern.finditer(tabs_content)]:
    the bucket of the tab title is created when it is missing, and the
    code blocks of the tab are added to it. *)
Definition tab_item (tabs : dict (dict (list string)))
    (tmatch : string * string) : dict (dict (list string)) :=
  let '(tab_attrs, tab_body) := tmatch in
  let tab_title := attr_title tab_attrs "untitled_tab" in
  let bucket :=
    match dict_get tab_title tabs with Some m => m | None => [] end in
  dict_set tab_title
    (extract_code_blocks_into finditer_code_blocks dedent tab_body bucket)
    tabs.

(** Body of the loop [for step_match in step_pattern.finditer(...)]. *)
Definition parse_step (step_match : string * string) : step :=
  let '(step_attrs, step_body) := step_match in
  let step_title := attr_title step_attrs "untitled_step" in
  match re_search_span tabs_open tabs_close step_body with
  | Some tabs_content =>
      let outside_body :=
        str_remove (tabs_open ++ tabs_content ++ tabs_close) step_body in
      mkStep step_title
        (extract_code_blocks_into finditer_code_blocks dedent outside_body [])
        (fold_left tab_item (finditer_tag "<Tab" "</Tab>" 0 tabs_content) [])
  | None =>
      mkStep step_title
        (extract_code_blocks_into finditer_code_blocks dedent step_body [])
        []
  end.

Definition extract_steps (steps_content : string) : list step :=
  map parse_step (finditer_tag "<Step" "</Step>" 0 steps_content).

End StepParser.

(** ** The file finder: [find_mdx_files_with_steps] *)

(** [p in s] *)
Definition str_in (p s : string) : bool :=
  match str_partition p s with Some _ => true | None => false end.

(** [s.endswith(suffix)] *)
Fixpoint str_endswith (suffix s : string) : bool :=
  (suffix =? s)
  || match s with
     | EmptyString => false
     | String _ s' => str_endswith suffix s'
     end.

Section Finder.
(** [os.walk(root_folder)] as the directories it yields, each with its
    file names; [os.path.join]; and the reading of a file, which gives
    no content when opening or reading raises. *)
Variable os_walk : string -> list (string * list string).
Variable path_join : string -> string -> string.
Variable read_file : string -> option string.

(** Body of the loop [for fname in filenames]. *)
Definition find_in_file (dirpath : string) (mdx_files : list string)
    (fname : string) : list string :=
  if str_endswith ".mdx" fname then
    let path := path_join dirpath fname in
    match read_file path with
    | Some content =>
        if str_in steps_open content && str_in steps_close content
        then (mdx_files ++ [path])%list
        else mdx_files
    | None => mdx_files
    end
  else mdx_files.

Definition find_mdx_files_with_steps (root_folder : string) : list string :=
  fold_left
    (fun mdx_files entry =>
       fold_left (find_in_file (fst entry)) (snd entry) mdx_files)
    (os_walk root_folder) [].

End Finder.

(** ** Parts of [main]: the languages of a document and the file names *)

(** [s.update(l)] *)
Definition pyset_update (str_hash : string -> N) (l : list string)
    (s : pyset) : pyset :=
  fold_left (fun acc x => pyset_add str_hash x acc) l s.

(** The loop that collects [all_langs]. *)
Definition all_langs (str_hash : string -> N) (steps : list step) : pyset :=
  fold_left
    (fun acc s =>
       fold_left (fun acc' tab => pyset_update str_hash (keys (snd tab)) acc')
         (tabs s) (pyset_update str_hash (keys (common_code s)) acc))
    steps pyset_empty.

(** The name of the file generated for a branch. *)
Definition out_file (base_name branch_name timestamp ext : string) : string :=
  if truthy branch_name
  then base_name ++ "_" ++ branch_name ++ "_" ++ timestamp ++ ext
  else base_name ++ "_" ++ timestamp ++ ext.

(** ** More notions used in the statements *)

(** Every code of a mapping is trimmed. *)
Definition all_stripped (d : dict string) : Prop :=
  Forall (fun bc => strip (snd bc) = snd bc) d.

(** What a step holds for one language: its snippets for that language
    alone, and no title. *)
Definition restrict_map (lang : string) (m : dict (list string))
    : dict (list string) :=
  match dict_get lang m with
  | Some l => [(lang, l)]
  | None => []
  end.

Definition restrict_step (lang : string) (s : step) : step :=
  mkStep "" (restrict_map lang (common_code s))
    (map (fun tab => (fst tab, restrict_map lang (snd tab))) (tabs s)).

(** A step with no code for a language: no common code and no tab
    holds an entry for it. *)
Definition no_code_for (lang : string) (s : step) : bool :=
  negb (dict_mem lang (common_code s))
  && forallb (fun tab => negb (dict_mem lang (snd tab))) (tabs s).

(** The bucket of a tab title in the tabs of a step, empty when the
    title is no key. *)
Definition bucket (ttitle : string) (tabs : dict (dict (list string)))
    : dict (list string) :=
  match dict_get ttitle tabs with Some m => m | None => [] end.

(** The languages of a code map are languages of the table. *)
Definition known_langs (code_map : dict (list string)) : bool :=
  forallb (fun l => dict_mem l LANGUAGE_CONFIG) (keys code_map).

(** What makes the finder keep a file: its name ends in .mdx, it can
    be read, and its content holds both markers. *)
Definition kept_file (path_join : string -> string -> string)
    (read_file : string -> option string) (dirpath fname path : string)
    : Prop :=
  str_endswith ".mdx" fname = true
  /\ path = path_join dirpath fname
  /\ exists content,
       read_file path = Some content
       /\ str_in steps_open content = true
       /\ str_in steps_close content = true.

(** A text with two steps, the first with a tab titled Linux, and a
    stand-in for the matcher of code blocks that takes every text for
    one Python block. *)
Definition ex_text_with_tab : string :=
  "<Step><Tabs><Tab title=" ++ dq ++ "Linux" ++ dq
  ++ ">apt</Tab></Tabs></Step><Step>check</Step>".

Definition ex_one_block (text : string) : list fence_match :=
  [(Some "python", text)].

(** The last step of a document that has valid tabs for a language. *)
Definition last_tabs_step (lang : string) (steps : list step) : option step :=
  fold_left
    (fun found s => if nonempty (valid_tabs lang s) then Some s else found)
    steps None.

(** * Properties *)

(** ** Dictionaries: lookup, assignment and keys *)

Section DictFacts.
Context {V : Type}.
Implicit Types (d : dict V) (k : string) (v : V).

Lemma dict_get_set_same k v d : dict_get k (dict_set k v d) = Some v.
Proof.
  induction d as [|[k' v'] r IH]; simpl.
  - now rewrite String.eqb_refl.
  - destruct (k' =? k) eqn:E; simpl; rewrite E; auto.
Qed.

Lemma dict_get_set_other k k' v d :
  k <> k' -> dict_get k' (dict_set k v d) = dict_get k' d.
Proof.
  intros Hne. induction d as [|[k0 v0] r IH]; simpl.
  - destruct (k =? k') eqn:E; auto.
    apply String.eqb_eq in E. contradiction.
  - destruct (k0 =? k) eqn:E; simpl.
    + apply String.eqb_eq in E. subst k0.
      destruct (k =? k') eqn:E'; auto.
      apply String.eqb_eq in E'. contradiction.
    + now rewrite IH.
Qed.

Lemma dict_mem_set k k' v d :
  dict_mem k' (dict_set k v d) = (k =? k') || dict_mem k' d.
Proof.
  unfold dict_mem. destruct (k =? k') eqn:E.
  - apply String.eqb_eq in E. subst. now rewrite dict_get_set_same.
  - apply String.eqb_neq in E. now rewrite dict_get_set_other.
Qed.

Lemma dict_mem_in k d : dict_mem k d = true <-> In k (keys d).
Proof.
  unfold dict_mem. induction d as [|[k' v'] r IH]; simpl.
  - split; [discriminate | tauto].
  - destruct (k' =? k) eqn:E.
    + apply String.eqb_eq in E. subst. tauto.
    + apply String.eqb_neq in E. rewrite IH. split; [tauto|].
      intros [H|H]; [contradiction | assumption].
Qed.

Lemma dict_mem_false k d : dict_mem k d = false <-> ~ In k (keys d).
Proof.
  rewrite <- dict_mem_in. destruct (dict_mem k d); split; congruence.
Qed.

Lemma dict_get_none k d : dict_get k d = None <-> dict_mem k d = false.
Proof.
  unfold dict_mem. destruct (dict_get k d); split; congruence.
Qed.

Lemma dict_get_some_mem k v d : dict_get k d = Some v -> dict_mem k d = true.
Proof. unfold dict_mem. now intros ->. Qed.

Lemma keys_dict_set k v d :
  keys (dict_set k v d) = if dict_mem k d then keys d else (keys d ++ [k])%list.
Proof.
  unfold dict_mem. induction d as [|[k' v'] r IH]; simpl; auto.
  destruct (k' =? k) eqn:E; simpl; auto.
  rewrite IH. now destruct (dict_get k r).
Qed.

Lemma dict_set_nodup k v d : NoDup (keys d) -> NoDup (keys (dict_set k v d)).
Proof.
  intros H. rewrite keys_dict_set. destruct (dict_mem k d) eqn:E; auto.
  apply dict_mem_false in E.
  apply NoDup_app; auto.
  - constructor; [simpl; tauto | constructor].
  - intros x Hx [<-|[]]. contradiction.
Qed.

End DictFacts.

Lemma dict_get_map_values {V W : Type} (f : V -> W) k (d : dict V) :
  dict_get k (map (fun kv => (fst kv, f (snd kv))) d)
  = option_map f (dict_get k d).
Proof.
  induction d as [|[k' v'] r IH]; simpl; auto.
  destruct (k' =? k); auto.
Qed.

Lemma keys_map_values {V W : Type} (f : V -> W) (d : dict V) :
  keys (map (fun kv => (fst kv, f (snd kv))) d) = keys d.
Proof. unfold keys. rewrite map_map. now apply map_ext. Qed.

Lemma dict_mem_map_values {V W : Type} (f : V -> W) k (d : dict V) :
  dict_mem k (map (fun kv => (fst kv, f (snd kv))) d) = dict_mem k d.
Proof.
  unfold dict_mem. rewrite dict_get_map_values. now destruct (dict_get k d).
Qed.

(** ** Sets: membership does not depend on the hash *)

Lemma pyset_mem_insert h x y s :
  pyset_mem x (pyset_insert h y s) = (y =? x) || pyset_mem x s.
Proof.
  induction s as [|z r IH]; simpl; auto.
  destruct (h y <=? h z)%N; simpl; auto.
  rewrite IH. now destruct (y =? x), (z =? x).
Qed.

Lemma pyset_mem_add h x y s :
  pyset_mem x (pyset_add h y s) = (y =? x) || pyset_mem x s.
Proof.
  unfold pyset_add. destruct (pyset_mem y s) eqn:E.
  - destruct (y =? x) eqn:E'; auto.
    apply String.eqb_eq in E'. now subst.
  - apply pyset_mem_insert.
Qed.

(** ** Case analysis on labels *)

Lemma dict_mem_cons {V : Type} k t (v : V) (r : dict V) :
  dict_mem k ((t, v) :: r) = (t =? k) || dict_mem k r.
Proof. unfold dict_mem. simpl. now destruct (t =? k). Qed.

Lemma dict_mem_nil {V : Type} k : dict_mem k (@nil (string * V)) = false.
Proof. reflexivity. Qed.

(** Case analysis on every string comparison in sight, then on the
    remaining membership tests. *)
Ltac case_eqb :=
  repeat match goal with
  | |- context [String.eqb ?a ?b] =>
      destruct (String.eqb_spec a b); subst
  | H : context [String.eqb ?a ?b] |- _ =>
      destruct (String.eqb_spec a b); subst
  end.

Ltac case_mem :=
  repeat match goal with
  | |- context [dict_mem ?k ?d] => destruct (dict_mem k d) eqn:?
  | |- context [pyset_mem ?k ?d] => destruct (pyset_mem k d) eqn:?
  | |- context [nonempty ?l] => destruct (nonempty l) eqn:?
  end.

Ltac bool_cases := case_eqb; case_mem; simpl in *; try congruence; auto.

(** ** The reconciliation loops: which labels they produce *)

Section Reconcile.
Variable h : string -> N.

Lemma tab_fold_mem b c vt nb u k :
  dict_mem k (fst (fold_left (tab_body h b c) vt (nb, u)))
  = dict_mem k nb
    || (if b =? "" then dict_mem k vt else nonempty vt && (b =? k)).
Proof.
  revert nb u. induction vt as [|[t tc] r IH]; intros nb u.
  - simpl. destruct (b =? ""); now rewrite orb_false_r.
  - cbn [fold_left tab_body]. rewrite dict_mem_cons.
    destruct (t =? b) eqn:Etb; [|destruct (b =? "") eqn:Eb;
      [|destruct (dict_mem b nb) eqn:Em]];
      rewrite IH, ?dict_mem_set, ?Eb; bool_cases.
Qed.

Lemma tab_fold_used b c vt nb u x :
  pyset_mem x (snd (fold_left (tab_body h b c) vt (nb, u)))
  = pyset_mem x u || (dict_mem x vt && ((b =? "") || (b =? x))).
Proof.
  revert nb u. induction vt as [|[t tc] r IH]; intros nb u.
  - simpl. now rewrite orb_false_r.
  - cbn [fold_left tab_body]. rewrite dict_mem_cons.
    destruct (t =? b) eqn:Etb; [|destruct (b =? "") eqn:Eb;
      [|destruct (dict_mem b nb) eqn:Em]];
      rewrite IH, ?pyset_mem_add, ?Eb; bool_cases.
Qed.

Lemma branch_fold_mem vt bs nb u k :
  dict_mem k (fst (fold_left (branch_body h vt) bs (nb, u)))
  = dict_mem k nb
    || (dict_mem "" bs && dict_mem k vt)
    || (nonempty vt && dict_mem k bs && negb (k =? "")).
Proof.
  revert nb u. induction bs as [|[b c] r IH]; intros nb u.
  - simpl. rewrite !dict_mem_nil. bool_cases.
  - cbn [fold_left]. unfold branch_body at 2. cbn [fst snd].
    rewrite (surjective_pairing (fold_left (tab_body h b c) vt (nb, u))).
    rewrite IH, tab_fold_mem, !dict_mem_cons. bool_cases.
Qed.

Lemma branch_fold_used vt bs nb u x :
  pyset_mem x (snd (fold_left (branch_body h vt) bs (nb, u)))
  = pyset_mem x u
    || (dict_mem x vt && (dict_mem "" bs || dict_mem x bs)).
Proof.
  revert nb u. induction bs as [|[b c] r IH]; intros nb u.
  - simpl. rewrite !dict_mem_nil. bool_cases.
  - cbn [fold_left]. unfold branch_body at 2. cbn [fst snd].
    rewrite (surjective_pairing (fold_left (tab_body h b c) vt (nb, u))).
    rewrite IH, tab_fold_used, !dict_mem_cons. bool_cases.
Qed.

Lemma fresh_fold_mem cc used vt nb k :
  dict_mem k (fold_left (fresh_body cc used) vt nb)
  = dict_mem k nb || (dict_mem k vt && negb (pyset_mem k used)).
Proof.
  revert nb. induction vt as [|[t tc] r IH]; intros nb.
  - simpl. now rewrite orb_false_r.
  - cbn [fold_left fresh_body]. rewrite dict_mem_cons.
    destruct (pyset_mem t used) eqn:Et; cbn [negb];
      rewrite IH, ?dict_mem_set; bool_cases.
Qed.

(** After a step with valid tabs the labels are the tab names and the
    old labels other than the default one. *)
Lemma reconcile_mem cc vt cur k :
  vt <> [] ->
  dict_mem k (reconcile h cc vt cur)
  = dict_mem k vt || (dict_mem k cur && negb (k =? "")).
Proof.
  intros Hvt. unfold reconcile.
  rewrite (surjective_pairing
             (fold_left (branch_body h vt) cur ([], pyset_empty))).
  rewrite fresh_fold_mem, branch_fold_mem, branch_fold_used.
  assert (Hn : nonempty vt = true) by (destruct vt; [contradiction | reflexivity]).
  rewrite Hn, dict_mem_nil. unfold pyset_empty. simpl.
  bool_cases.
Qed.

End Reconcile.

(** ** The reconciliation loops: the code they store *)

Section ReconcileValues.
Variable h : string -> N.

(** A branch with a label other than the default one writes only under
    its own label. *)
Lemma tab_fold_get_other b c vt nb u k :
  b <> "" -> k <> b ->
  dict_get k (fst (fold_left (tab_body h b c) vt (nb, u))) = dict_get k nb.
Proof.
  intros Hb Hk. revert nb u.
  induction vt as [|[t tc] r IH]; intros nb u; auto.
  cbn [fold_left tab_body].
  destruct (String.eqb_spec t b) as [->|Htb].
  - rewrite IH. apply dict_get_set_other. congruence.
  - destruct (String.eqb_spec b "") as [|_]; [contradiction|].
    destruct (dict_mem b nb); rewrite IH; auto.
    apply dict_get_set_other. congruence.
Qed.

(** Once its label is stored, a branch whose label is no tab of the
    rest of the loop changes nothing any more. *)
Lemma tab_fold_idle b c vt nb u :
  b <> "" -> dict_mem b vt = false -> dict_mem b nb = true ->
  fold_left (tab_body h b c) vt (nb, u) = (nb, u).
Proof.
  intros Hb. revert nb u.
  induction vt as [|[t tc] r IH]; intros nb u Hr Hnb; auto.
  rewrite dict_mem_cons in Hr. apply orb_false_iff in Hr as [Ht Hr].
  cbn [fold_left tab_body]. rewrite Ht.
  destruct (String.eqb_spec b "") as [|_]; [contradiction|].
  rewrite Hnb. now apply IH.
Qed.

Lemma tab_fold_get_self b c vt nb u :
  b <> "" -> NoDup (keys vt) ->
  dict_get b (fst (fold_left (tab_body h b c) vt (nb, u)))
  = match dict_get b vt with
    | Some t => Some (strip (c ++ nl2 ++ t))
    | None =>
        if nonempty vt
        then Some (match dict_get b nb with Some old => old | None => c end)
        else dict_get b nb
    end.
Proof.
  intros Hb. revert nb u.
  induction vt as [|[t tc] r IH]; intros nb u Hnd; auto.
  inversion Hnd as [|? ? Hnotin Hnd']; subst.
  cbn [fold_left tab_body dict_get nonempty].
  destruct (String.eqb_spec t b) as [->|Htb].
  - rewrite tab_fold_idle; auto.
    + cbn [fst]. apply dict_get_set_same.
    + now apply dict_mem_false.
    + rewrite dict_mem_set, String.eqb_refl. reflexivity.
  - destruct (String.eqb_spec b "") as [|_]; [contradiction|].
    destruct (dict_mem b nb) eqn:Em.
    + rewrite IH by assumption.
      destruct (dict_get b r); auto.
      unfold dict_mem in Em. destruct (dict_get b nb) eqn:Eg; [|discriminate].
      now destruct (nonempty r).
    + rewrite IH by assumption. rewrite dict_get_set_same.
      apply dict_get_none in Em. rewrite Em.
      destruct (dict_get b r); auto. now destruct (nonempty r).
Qed.

Lemma branch_fold_get_other vt bs nb u k :
  dict_mem "" bs = false -> dict_mem k bs = false ->
  dict_get k (fst (fold_left (branch_body h vt) bs (nb, u))) = dict_get k nb.
Proof.
  revert nb u. induction bs as [|[b c] r IH]; intros nb u H0 Hk; auto.
  rewrite dict_mem_cons in H0, Hk.
  apply orb_false_iff in H0 as [Hb H0], Hk as [Hbk Hk].
  apply String.eqb_neq in Hb, Hbk.
  cbn [fold_left]. unfold branch_body at 2. cbn [fst snd].
  rewrite (surjective_pairing (fold_left (tab_body h b c) vt (nb, u))).
  rewrite IH by assumption. apply tab_fold_get_other; congruence.
Qed.

Lemma branch_fold_get_kept vt bs nb u k c :
  dict_mem "" bs = false -> NoDup (keys bs) -> NoDup (keys vt) ->
  vt <> [] -> dict_get k nb = None -> dict_get k bs = Some c ->
  dict_get k (fst (fold_left (branch_body h vt) bs (nb, u)))
  = Some (match dict_get k vt with
          | Some t => strip (c ++ nl2 ++ t)
          | None => c
          end).
Proof.
  intros H0 Hnd Hvnd Hvt. revert nb u H0 Hnd.
  induction bs as [|[b c'] r IH]; intros nb u H0 Hnd Hnb Hget;
    [discriminate|].
  rewrite dict_mem_cons in H0. apply orb_false_iff in H0 as [Hb H0].
  apply String.eqb_neq in Hb.
  inversion Hnd as [|? ? Hnotin Hnd']; subst.
  cbn [fold_left]. unfold branch_body at 2. cbn [fst snd].
  rewrite (surjective_pairing (fold_left (tab_body h b c') vt (nb, u))).
  simpl in Hget. destruct (String.eqb_spec b k) as [->|Hbk].
  - injection Hget as ->.
    rewrite branch_fold_get_other; auto.
    + rewrite tab_fold_get_self by assumption. rewrite Hnb.
      destruct (dict_get k vt); auto.
      destruct vt; [contradiction | reflexivity].
    + now apply dict_mem_false.
  - apply IH; auto.
    rewrite tab_fold_get_other; auto.
Qed.

Lemma fresh_fold_get_other cc used vt nb k :
  dict_mem k vt && negb (pyset_mem k used) = false ->
  dict_get k (fold_left (fresh_body cc used) vt nb) = dict_get k nb.
Proof.
  revert nb. induction vt as [|[t tc] r IH]; intros nb Hk; auto.
  rewrite dict_mem_cons in Hk. cbn [fold_left fresh_body].
  destruct (pyset_mem t used) eqn:Et; cbn [negb].
  - apply IH. destruct (String.eqb_spec t k); subst; [|assumption].
    rewrite Et. apply andb_false_r.
  - destruct (String.eqb_spec t k) as [->|Htk].
    + rewrite Et in Hk. discriminate.
    + rewrite IH by assumption. now apply dict_get_set_other.
Qed.

Lemma fresh_fold_get_new cc used vt nb k tc :
  NoDup (keys vt) -> dict_get k vt = Some tc -> pyset_mem k used = false ->
  dict_get k (fold_left (fresh_body cc used) vt nb)
  = Some (if truthy cc then strip (cc ++ nl2 ++ tc) else tc).
Proof.
  revert nb. induction vt as [|[t tc'] r IH]; intros nb Hnd Hget Hused;
    [discriminate|].
  inversion Hnd as [|? ? Hnotin Hnd']; subst.
  simpl in Hget. cbn [fold_left fresh_body].
  destruct (String.eqb_spec t k) as [->|Htk].
  - injection Hget as ->. rewrite Hused. cbn [negb].
    rewrite fresh_fold_get_other.
    + apply dict_get_set_same.
    + apply dict_mem_false in Hnotin. now rewrite Hnotin.
  - now apply IH.
Qed.

(** A branch kept through a step with valid tabs, the default branch
    being absent: it receives the code of the tab that bears its label,
    if there is one. *)
Lemma reconcile_get_kept cc vt cur k c :
  dict_mem "" cur = false -> NoDup (keys cur) -> NoDup (keys vt) ->
  vt <> [] -> dict_get k cur = Some c ->
  dict_get k (reconcile h cc vt cur)
  = Some (match dict_get k vt with
          | Some t => strip (c ++ nl2 ++ t)
          | None => c
          end).
Proof.
  intros H0 Hnd Hvnd Hvt Hget. unfold reconcile.
  rewrite (surjective_pairing
             (fold_left (branch_body h vt) cur ([], pyset_empty))).
  rewrite fresh_fold_get_other.
  - now apply branch_fold_get_kept.
  - rewrite branch_fold_used, H0, (dict_get_some_mem _ _ _ Hget).
    simpl. now destruct (dict_mem k vt).
Qed.

(** A tab whose name is no label, the default branch being absent,
    starts from the common code of the step alone. *)
Lemma reconcile_get_fresh cc vt cur k tc :
  dict_mem "" cur = false -> dict_mem k cur = false ->
  NoDup (keys vt) -> dict_get k vt = Some tc ->
  dict_get k (reconcile h cc vt cur)
  = Some (if truthy cc then strip (cc ++ nl2 ++ tc) else tc).
Proof.
  intros H0 Hk Hvnd Hget. unfold reconcile.
  rewrite (surjective_pairing
             (fold_left (branch_body h vt) cur ([], pyset_empty))).
  apply fresh_fold_get_new; auto.
  rewrite branch_fold_used, H0, Hk. simpl. apply andb_false_r.
Qed.

End ReconcileValues.

(** ** Common code and valid tabs *)

Lemma keys_append_common cc cur : keys (append_common cc cur) = keys cur.
Proof.
  unfold append_common. destruct (truthy cc); auto.
  apply (keys_map_values (fun c => strip (c ++ nl2 ++ cc))).
Qed.

Lemma dict_mem_append_common cc cur k :
  dict_mem k (append_common cc cur) = dict_mem k cur.
Proof.
  unfold append_common. destruct (truthy cc); auto.
  apply (dict_mem_map_values (fun c => strip (c ++ nl2 ++ cc))).
Qed.

Lemma dict_get_append_common cc cur k :
  dict_get k (append_common cc cur)
  = option_map (add_common cc) (dict_get k cur).
Proof.
  unfold append_common, add_common. destruct (truthy cc).
  - apply (dict_get_map_values (fun c => strip (c ++ nl2 ++ cc))).
  - now destruct (dict_get k cur).
Qed.

Lemma valid_tabs_fold_nodup lang l vt :
  NoDup (keys vt) -> NoDup (keys (fold_left (valid_tabs_add lang) l vt)).
Proof.
  revert vt. induction l as [|[t m] r IH]; intros vt Hnd; auto.
  cbn [fold_left valid_tabs_add].
  destruct (dict_get lang m) as [[|x xs]|]; apply IH;
    auto using dict_set_nodup.
Qed.

Lemma valid_tabs_nodup lang s : NoDup (keys (valid_tabs lang s)).
Proof. apply valid_tabs_fold_nodup. constructor. Qed.

(** The name of a valid tab is the title of a tab of the step. *)
Lemma valid_tabs_fold_mem lang l vt k :
  dict_mem k (fold_left (valid_tabs_add lang) l vt) = true ->
  dict_mem k vt = true \/ In k (keys l).
Proof.
  revert vt. induction l as [|[t m] r IH]; intros vt Hk; auto.
  cbn [fold_left valid_tabs_add] in Hk.
  destruct (dict_get lang m) as [[|x xs]|]; apply IH in Hk;
    simpl; try tauto.
  rewrite dict_mem_set in Hk. destruct Hk as [Hk|Hk]; [|tauto].
  apply orb_true_iff in Hk as [Hk|Hk]; [|tauto].
  apply String.eqb_eq in Hk. tauto.
Qed.

Lemma valid_tabs_mem_title lang s k :
  dict_mem k (valid_tabs lang s) = true -> In k (keys (tabs s)).
Proof.
  intros Hk. apply valid_tabs_fold_mem in Hk as [Hk|Hk]; auto.
  discriminate.
Qed.

(** ** Every mapping the builder holds is a dictionary *)

Section WellFormed.
Variable h : string -> N.

Lemma tab_fold_nodup b c vt nb u :
  NoDup (keys nb) ->
  NoDup (keys (fst (fold_left (tab_body h b c) vt (nb, u)))).
Proof.
  revert nb u. induction vt as [|[t tc] r IH]; intros nb u Hnd; auto.
  cbn [fold_left tab_body].
  destruct (t =? b); [|destruct (b =? ""); [|destruct (dict_mem b nb)]];
    apply IH; auto using dict_set_nodup.
Qed.

Lemma branch_fold_nodup vt bs nb u :
  NoDup (keys nb) ->
  NoDup (keys (fst (fold_left (branch_body h vt) bs (nb, u)))).
Proof.
  revert nb u. induction bs as [|[b c] r IH]; intros nb u Hnd; auto.
  cbn [fold_left]. unfold branch_body at 2. cbn [fst snd].
  rewrite (surjective_pairing (fold_left (tab_body h b c) vt (nb, u))).
  apply IH. now apply tab_fold_nodup.
Qed.

Lemma fresh_fold_nodup cc used vt nb :
  NoDup (keys nb) -> NoDup (keys (fold_left (fresh_body cc used) vt nb)).
Proof.
  revert nb. induction vt as [|[t tc] r IH]; intros nb Hnd; auto.
  cbn [fold_left fresh_body].
  destruct (negb (pyset_mem t used)); apply IH; auto using dict_set_nodup.
Qed.

Lemma reconcile_nodup cc vt cur : NoDup (keys (reconcile h cc vt cur)).
Proof.
  unfold reconcile.
  rewrite (surjective_pairing
             (fold_left (branch_body h vt) cur ([], pyset_empty))).
  apply fresh_fold_nodup, branch_fold_nodup. constructor.
Qed.

Lemma process_step_nodup lang cur s :
  NoDup (keys cur) -> NoDup (keys (process_step h lang cur s)).
Proof.
  intros Hnd. unfold process_step.
  destruct (valid_tabs lang s).
  - now rewrite keys_append_common.
  - apply reconcile_nodup.
Qed.

Lemma fold_process_step_nodup lang steps cur :
  NoDup (keys cur) ->
  NoDup (keys (fold_left (process_step h lang) steps cur)).
Proof.
  revert cur. induction steps as [|s r IH]; intros cur Hnd; auto.
  simpl. apply IH. now apply process_step_nodup.
Qed.

Lemma branches_after_nodup lang steps :
  NoDup (keys (branches_after h lang steps)).
Proof.
  apply fold_process_step_nodup. simpl.
  constructor; [simpl; tauto | constructor].
Qed.

(** The labels after one step. *)
Lemma process_step_mem lang cur s k :
  dict_mem k (process_step h lang cur s)
  = if nonempty (valid_tabs lang s)
    then dict_mem k (valid_tabs lang s) || (dict_mem k cur && negb (k =? ""))
    else dict_mem k cur.
Proof.
  unfold process_step. destruct (valid_tabs lang s) as [|tab vt] eqn:E.
  - apply dict_mem_append_common.
  - rewrite reconcile_mem by discriminate.
    now rewrite dict_mem_append_common.
Qed.

Lemma branches_after_snoc lang steps s :
  branches_after h lang (steps ++ [s])
  = process_step h lang (branches_after h lang steps) s.
Proof. unfold branches_after. now rewrite fold_left_app. Qed.

End WellFormed.

(** ** The result does not depend on the hash of the interpreter *)

Section HashIndependence.
Variables h1 h2 : string -> N.

Lemma tab_body_agree b c st1 st2 tab :
  recon_agree st1 st2 ->
  recon_agree (tab_body h1 b c st1 tab) (tab_body h2 b c st2 tab).
Proof.
  destruct st1 as [nb1 u1], st2 as [nb2 u2], tab as [t tc].
  intros [Hnb Hu]. simpl in Hnb. subst nb2. unfold tab_body.
  destruct (t =? b); [|destruct (b =? ""); [|destruct (dict_mem b nb1)]];
    split; simpl; auto;
    intros x; rewrite !pyset_mem_add; f_equal; apply Hu.
Qed.

Lemma fold_agree {A : Type} (f1 f2 : recon -> A -> recon) l :
  (forall st1 st2 a, recon_agree st1 st2 -> recon_agree (f1 st1 a) (f2 st2 a)) ->
  forall st1 st2, recon_agree st1 st2 ->
  recon_agree (fold_left f1 l st1) (fold_left f2 l st2).
Proof.
  intros Hf. induction l as [|a r IH]; intros st1 st2 H; auto.
  simpl. apply IH, Hf, H.
Qed.

Lemma branch_body_agree vt st1 st2 bc :
  recon_agree st1 st2 ->
  recon_agree (branch_body h1 vt st1 bc) (branch_body h2 vt st2 bc).
Proof.
  intros H. unfold branch_body. apply fold_agree; auto.
  intros. now apply tab_body_agree.
Qed.

Lemma fresh_fold_agree cc u1 u2 vt nb :
  same_members u1 u2 ->
  fold_left (fresh_body cc u1) vt nb = fold_left (fresh_body cc u2) vt nb.
Proof.
  intros Hu. revert nb. induction vt as [|[t tc] r IH]; intros nb; auto.
  cbn [fold_left fresh_body]. rewrite (Hu t). apply IH.
Qed.

Lemma reconcile_hash cc vt cur :
  reconcile h1 cc vt cur = reconcile h2 cc vt cur.
Proof.
  unfold reconcile.
  assert (H : recon_agree
                (fold_left (branch_body h1 vt) cur ([], pyset_empty))
                (fold_left (branch_body h2 vt) cur ([], pyset_empty))).
  { apply fold_agree.
    - intros. now apply branch_body_agree.
    - split; [reflexivity | intros x; reflexivity]. }
  destruct (fold_left (branch_body h1 vt) cur ([], pyset_empty)) as [nb1 u1].
  destruct (fold_left (branch_body h2 vt) cur ([], pyset_empty)) as [nb2 u2].
  destruct H as [Hnb Hu]. simpl in Hnb, Hu. subst nb2.
  now apply fresh_fold_agree.
Qed.

Lemma process_step_hash lang cur s :
  process_step h1 lang cur s = process_step h2 lang cur s.
Proof.
  unfold process_step. destruct (valid_tabs lang s); auto.
  apply reconcile_hash.
Qed.

Lemma branches_after_hash lang steps :
  branches_after h1 lang steps = branches_after h2 lang steps.
Proof.
  unfold branches_after. generalize initial_branches.
  induction steps as [|s r IH]; intros cur; auto.
  simpl. rewrite process_step_hash. apply IH.
Qed.

Lemma build_branches_hash steps lang :
  build_branches_for_language h1 steps lang
  = build_branches_for_language h2 steps lang.
Proof.
  unfold build_branches_for_language. now rewrite branches_after_hash.
Qed.

End HashIndependence.

(** ** The branch builder: labels and code of the branches *)

(** C1: on the two-step document (common code in step 1, tabs Linux and
    Mac in step 2, all for one language) the builder returns exactly the
    two branches Linux and Mac, each the common code, a blank line and
    the code of the tab; the default label is no key of the result. *)
Theorem example_scenario_two_tabs (h : string -> N) (lang : string) :
  build_branches_for_language h (ex_document lang) lang
  = [("Linux", py_print "start" ++ nl2 ++ py_print "linux");
     ("Mac", py_print "start" ++ nl2 ++ py_print "mac")]
  /\ dict_mem "" (build_branches_for_language h (ex_document lang) lang)
     = false.
Proof.
  rewrite (build_branches_hash h hash0).
  assert (E : build_branches_for_language hash0 (ex_document lang) lang
              = [("Linux", py_print "start" ++ nl2 ++ py_print "linux");
                 ("Mac", py_print "start" ++ nl2 ++ py_print "mac")]).
  { unfold build_branches_for_language, branches_after, ex_document.
    cbn [fold_left].
    unfold process_step, valid_tabs, combined_common, common_list.
    cbn [ex_step1 ex_step2 common_code tabs fold_left valid_tabs_add dict_get].
    rewrite !String.eqb_refl. vm_compute. reflexivity. }
  rewrite E. split; reflexivity.
Qed.

(** The default label is dropped by the second step of the example
    document: it is in the mapping after step 1 and in neither the
    mapping after step 2 nor the result. *)
Lemma default_label_dropped :
  dict_mem "" (branches_after hash0 "python" [ex_step1 "python"]) = true
  /\ dict_mem "" (branches_after hash0 "python" (ex_document "python")) = false
  /\ dict_mem "" (build_branches_for_language hash0 (ex_document "python")
                    "python") = false.
Proof. repeat split; vm_compute; reflexivity. Qed.

Lemma last_tabs_step_snoc lang steps s :
  last_tabs_step lang (steps ++ [s])
  = if nonempty (valid_tabs lang s) then Some s
    else last_tabs_step lang steps.
Proof. unfold last_tabs_step. now rewrite fold_left_app. Qed.

(** C2, as amended: after a step without valid tabs the default label
    is in the mapping exactly when it was there before the step, so it
    is present up to the first step that has valid tabs; after a step
    with valid tabs it is in the mapping exactly when one of the valid
    tabs is itself named by the empty string.  Hence the default label
    is in the mapping after the steps, and in the result, exactly when
    no step has valid tabs or the last step that has valid tabs has one
    named by the empty string. *)
Theorem default_label_after_step (h : string -> N) (lang : string)
    (steps : list step) (s : step) :
  dict_mem "" (branches_after h lang (steps ++ [s]))
  = (if nonempty (valid_tabs lang s)
     then dict_mem "" (valid_tabs lang s)
     else dict_mem "" (branches_after h lang steps))
  /\ dict_mem "" (branches_after h lang steps)
     = match last_tabs_step lang steps with
       | Some t => dict_mem "" (valid_tabs lang t)
       | None => true
       end
  /\ dict_mem "" (build_branches_for_language h steps lang)
     = match last_tabs_step lang steps with
       | Some t => dict_mem "" (valid_tabs lang t)
       | None => true
       end.
Proof.
  assert (Hstep : forall pre t,
             dict_mem "" (branches_after h lang (pre ++ [t]))
             = if nonempty (valid_tabs lang t)
               then dict_mem "" (valid_tabs lang t)
               else dict_mem "" (branches_after h lang pre)).
  { intros pre t. rewrite branches_after_snoc, process_step_mem.
    destruct (nonempty (valid_tabs lang t)); auto.
    rewrite String.eqb_refl. cbn [negb].
    now rewrite andb_false_r, orb_false_r. }
  assert (Hall : dict_mem "" (branches_after h lang steps)
                 = match last_tabs_step lang steps with
                   | Some t => dict_mem "" (valid_tabs lang t)
                   | None => true
                   end).
  { clear s. induction steps as [|t steps IH] using rev_ind.
    - reflexivity.
    - rewrite Hstep, last_tabs_step_snoc, IH.
      now destruct (nonempty (valid_tabs lang t)). }
  split; [apply Hstep|]. split; [exact Hall|].
  unfold build_branches_for_language.
  now rewrite (dict_mem_map_values strip).
Qed.

(** C10: the builder returns a mapping with at least one label, for
    every step sequence, the empty one included. *)
Theorem build_branches_nonempty (h : string -> N) (steps : list step)
    (lang : string) :
  nonempty (build_branches_for_language h steps lang) = true
  /\ exists label code,
       dict_get label (build_branches_for_language h steps lang) = Some code.
Proof.
  assert (H : exists label,
             dict_mem label (branches_after h lang steps) = true).
  { induction steps as [|s steps IH] using rev_ind.
    - exists "". reflexivity.
    - destruct IH as [label IH]. rewrite branches_after_snoc.
      destruct (valid_tabs lang s) as [|[t tc] vt] eqn:E.
      + exists label. rewrite process_step_mem, E. exact IH.
      + exists t. rewrite process_step_mem, E, dict_mem_cons.
        now rewrite String.eqb_refl. }
  destruct H as [label H]. unfold build_branches_for_language.
  split.
  - destruct (branches_after h lang steps); [discriminate | reflexivity].
  - unfold dict_mem in H.
    destruct (dict_get label (branches_after h lang steps)) as [c|] eqn:E;
      [|discriminate].
    exists label, (strip c).
    now rewrite (dict_get_map_values strip), E.
Qed.

(** C5: at a step, a valid tab whose name is no label of the current
    mapping, the mapping holding no default branch, becomes a branch
    whose code is the joined common code of the step, a blank line and
    the code of the tab (the code of the tab alone when the step has no
    common code); nothing of the current mapping enters it. *)
Theorem fresh_branch_creation (h : string -> N) (lang : string)
    (current : dict string) (s : step) (ttitle tcode : string) :
  dict_mem "" current = false ->
  dict_mem ttitle current = false ->
  dict_get ttitle (valid_tabs lang s) = Some tcode ->
  dict_get ttitle (process_step h lang current s)
  = Some (if truthy (combined_common lang s)
          then strip (combined_common lang s ++ nl2 ++ tcode)
          else tcode).
Proof.
  intros H0 Hk Hget. unfold process_step.
  destruct (valid_tabs lang s) as [|tab vt] eqn:E; [discriminate|].
  apply reconcile_get_fresh; auto.
  - now rewrite dict_mem_append_common.
  - now rewrite dict_mem_append_common.
  - rewrite <- E. apply valid_tabs_nodup.
Qed.

(** The mapping holds the branch Linux alone and the step offers the
    tab Windows: the branch Windows starts from the common code of the
    step, and nothing of the branch Linux is in it. *)
Lemma fresh_branch_creation_witness :
  dict_get "Windows"
    (process_step hash0 "python" [("Linux", py_print "linux")] ex_step_windows)
  = Some (py_print "setup" ++ nl2 ++ py_print "windows").
Proof.
  apply (fresh_branch_creation hash0 "python" [("Linux", py_print "linux")]
           ex_step_windows "Windows" (py_print "windows")); reflexivity.
Defined.

Lemma tabs_titled_valid lang s :
  forallb (fun t => negb (t =? "")) (keys (tabs s)) = true ->
  dict_mem "" (valid_tabs lang s) = false.
Proof.
  intros H. destruct (dict_mem "" (valid_tabs lang s)) eqn:E; auto.
  apply valid_tabs_mem_title in E.
  rewrite forallb_forall in H. apply H in E. discriminate.
Qed.

(** With titled tabs, a mapping that still holds the default branch
    holds nothing else. *)
Lemma default_branch_alone h lang steps k :
  tabs_titled steps = true ->
  dict_mem "" (branches_after h lang steps) = true ->
  k <> "" ->
  dict_mem k (branches_after h lang steps) = false.
Proof.
  induction steps as [|s steps IH] using rev_ind; intros Ht H0 Hk.
  - unfold branches_after, initial_branches. simpl.
    rewrite dict_mem_cons, dict_mem_nil.
    apply String.eqb_neq in Hk. rewrite String.eqb_sym in Hk.
    now rewrite Hk.
  - unfold tabs_titled in Ht. rewrite forallb_app in Ht.
    apply andb_true_iff in Ht as [Ht Hs]. simpl in Hs.
    rewrite andb_true_r in Hs.
    rewrite branches_after_snoc, process_step_mem in *.
    destruct (nonempty (valid_tabs lang s)).
    + rewrite (tabs_titled_valid lang s Hs) in H0.
      rewrite String.eqb_refl, andb_false_r in H0. discriminate.
    + now apply IH.
Qed.

(** A label, once in the mapping, is in it after every later step. *)
Lemma label_persists h lang pre post k :
  k <> "" ->
  dict_mem k (branches_after h lang pre) = true ->
  dict_mem k (branches_after h lang (pre ++ post)) = true.
Proof.
  intros Hk. induction post as [|s post IH] using rev_ind; intros H.
  - now rewrite app_nil_r.
  - rewrite app_assoc, branches_after_snoc, process_step_mem, (IH H).
    apply String.eqb_neq in Hk. rewrite Hk.
    destruct (nonempty (valid_tabs lang s)); auto.
    apply orb_true_r.
Qed.


(** Persistence where every tab has a title: in a document none of
    whose tabs is named by the empty string, a branch with a non-empty
    label X, once in the mapping, is in the mapping after every later
    step, and the next step gives its code the common code of the step
    and then the code of the valid tab named X, if the step has one,
    and nothing more if it has none. *)
Theorem branch_persistence (h : string -> N) (lang : string)
    (pre : list step) (s : step) (X code : string) :
  tabs_titled (pre ++ [s]) = true ->
  X <> "" ->
  dict_get X (branches_after h lang pre) = Some code ->
  (forall post,
      dict_mem X (branches_after h lang (pre ++ post)) = true)
  /\ dict_get X (branches_after h lang (pre ++ [s]))
     = Some (match dict_get X (valid_tabs lang s) with
             | Some tcode =>
                 strip (add_common (combined_common lang s) code
                        ++ nl2 ++ tcode)
             | None => add_common (combined_common lang s) code
             end).
Proof.
  intros Ht HX Hget. split.
  - intros post. apply label_persists; auto.
    now apply dict_get_some_mem in Hget.
  - unfold tabs_titled in Ht. rewrite forallb_app in Ht.
    apply andb_true_iff in Ht as [Ht Hs]. simpl in Hs.
    rewrite andb_true_r in Hs.
    pose proof (tabs_titled_valid lang s Hs) as Hv.
    rewrite branches_after_snoc. unfold process_step.
    destruct (valid_tabs lang s) as [|tab vt] eqn:E.
    + rewrite dict_get_append_common, Hget. reflexivity.
    + assert (H0 : dict_mem "" (branches_after h lang pre) = false).
      { destruct (dict_mem "" (branches_after h lang pre)) eqn:E0; auto.
        pose proof (dict_get_some_mem _ _ _ Hget) as HX'.
        rewrite (default_branch_alone h lang pre X Ht E0 HX) in HX'.
        discriminate. }
      apply reconcile_get_kept.
      * now rewrite dict_mem_append_common.
      * rewrite keys_append_common. apply branches_after_nodup.
      * rewrite <- E. apply valid_tabs_nodup.
      * discriminate.
      * rewrite dict_get_append_common, Hget. reflexivity.
Qed.

(** The branch Linux of the example document stays in the mapping, and
    a third step gives it its common code and the code of its tab
    Linux. *)
Lemma branch_persistence_witness :
  (forall post,
      dict_mem "Linux"
        (branches_after hash0 "python" (ex_document "python" ++ post)) = true)
  /\ dict_get "Linux"
       (branches_after hash0 "python"
          (ex_document "python" ++ [ex_step_linux_only]))
     = Some (py_print "start" ++ nl2 ++ py_print "linux" ++ nl2
             ++ py_print "check" ++ nl2 ++ py_print "apt").
Proof.
  apply (branch_persistence hash0 "python" (ex_document "python")
           ex_step_linux_only "Linux"
           (py_print "start" ++ nl2 ++ py_print "linux"));
    [reflexivity | discriminate | reflexivity].
Defined.

(** C7: two invocations of the builder on the same steps and language,
    each in an interpreter process with a string hash of its own, yield
    mappings with the same labels in the same order and the same code
    under every label. *)
Theorem build_branches_deterministic (h1 h2 : string -> N)
    (steps : list step) (lang : string) :
  keys (build_branches_for_language h1 steps lang)
  = keys (build_branches_for_language h2 steps lang)
  /\ forall label,
       dict_get label (build_branches_for_language h1 steps lang)
       = dict_get label (build_branches_for_language h2 steps lang).
Proof.
  pose proof (build_branches_hash h1 h2 steps lang) as E.
  split; [|intros label]; now rewrite E.
Qed.

(** ** Stripping *)

Lemma rstrip_head c r :
  isspace c = false -> rstrip (String c r) = String c (rstrip r).
Proof. intros H. simpl. rewrite H. now destruct (rstrip r). Qed.

Lemma rstrip_idem s : rstrip (rstrip s) = rstrip s.
Proof.
  induction s as [|c r IH]; auto.
  simpl. destruct (rstrip r) as [|c' r'] eqn:E.
  - destruct (isspace c) eqn:Ec; auto. simpl. now rewrite Ec.
  - change (rstrip (String c (String c' r')) = String c (String c' r')).
    simpl rstrip at 1. simpl in IH. now rewrite IH.
Qed.

Lemma lstrip_head s :
  match lstrip s with
  | EmptyString => True
  | String c _ => isspace c = false
  end.
Proof.
  induction s as [|c r IH]; simpl; auto.
  destruct (isspace c) eqn:E; auto.
Qed.

Lemma strip_head s :
  match strip s with
  | EmptyString => True
  | String c _ => isspace c = false
  end.
Proof.
  unfold strip. pose proof (lstrip_head s) as H.
  destruct (lstrip s) as [|c r]; simpl; auto.
  rewrite H. now destruct (rstrip r).
Qed.

Lemma lstrip_fixed c r : isspace c = false -> lstrip (String c r) = String c r.
Proof. intros H. simpl. now rewrite H. Qed.

Lemma strip_idem s : strip (strip s) = strip s.
Proof.
  pose proof (strip_head s) as H. unfold strip at 1.
  destruct (strip s) as [|c r] eqn:E; auto.
  rewrite lstrip_fixed by assumption. rewrite <- E.
  unfold strip. apply rstrip_idem.
Qed.

Lemma rstrip_strip s : rstrip (strip s) = strip s.
Proof. apply rstrip_idem. Qed.

Lemma append_not_empty u b : b <> "" -> u ++ b <> "".
Proof. destruct u; simpl; auto. discriminate. Qed.

Lemma rstrip_append_fixed u b :
  rstrip b = b -> b <> "" -> rstrip (u ++ b) = u ++ b.
Proof.
  intros Hb Hne. induction u as [|c u IH]; auto.
  simpl. rewrite IH.
  destruct (u ++ b) eqn:E; auto.
  now apply append_not_empty in E.
Qed.

(** Joining two stripped, non-empty texts with a blank line gives a
    stripped text. *)
Lemma strip_joined a b :
  strip a = a -> strip b = b -> a <> "" -> b <> "" ->
  strip (a ++ nl2 ++ b) = a ++ nl2 ++ b.
Proof.
  intros Ha Hb Hna Hnb. pose proof (strip_head a) as H. rewrite Ha in H.
  destruct a as [|c a']; [contradiction|].
  unfold strip. change (String c a' ++ nl2 ++ b) with (String c (a' ++ nl2 ++ b)).
  rewrite lstrip_fixed by assumption.
  change (String c (a' ++ nl2 ++ b)) with (String c a' ++ nl2 ++ b).
  apply rstrip_append_fixed.
  - apply rstrip_append_fixed; auto. rewrite <- Hb. apply rstrip_strip.
  - now apply append_not_empty.
Qed.

Lemma strip_after_blank b : strip b = b -> strip ("" ++ nl2 ++ b) = b.
Proof. intros Hb. exact Hb. Qed.

Lemma combined_common_stripped lang s :
  strip (combined_common lang s) = combined_common lang s.
Proof. apply strip_idem. Qed.

(** ** Documents without tabs *)

Lemma append_assoc3 a b c : (a ++ b) ++ c = a ++ b ++ c.
Proof. induction a as [|x a IH]; simpl; [|rewrite IH]; reflexivity. Qed.

Lemma add_common_stripped cc acc :
  strip cc = cc -> strip acc = acc -> strip (add_common cc acc) = add_common cc acc.
Proof.
  intros Hcc Hacc. unfold add_common. destruct (truthy cc); auto.
  apply strip_idem.
Qed.

(** Appending the common code of step after step to a stripped text
    joins, with blank lines, the texts that are not empty. *)
Lemma fold_add_common_join ccs acc :
  Forall (fun cc => strip cc = cc) ccs -> strip acc = acc ->
  fold_left (fun a cc => add_common cc a) ccs acc
  = join nl2 (filter truthy (acc :: ccs)).
Proof.
  intros Hccs. revert acc.
  induction Hccs as [|cc ccs Hcc Hccs IH]; intros acc Hacc.
  - simpl. now destruct acc.
  - cbn [fold_left]. rewrite IH by now apply add_common_stripped.
    unfold add_common. destruct cc as [|x cc'].
    + reflexivity.
    + cbn [truthy]. destruct acc as [|y acc'].
      * rewrite strip_after_blank by assumption. reflexivity.
      * rewrite strip_joined by (assumption || discriminate).
        cbn [filter truthy].
        change (String y acc' ++ nl2 ++ String x cc')
          with (String y (acc' ++ nl2 ++ String x cc')).
        cbn [truthy join].
        destruct (filter truthy ccs) as [|z zs]; auto.
        change (String y (acc' ++ nl2 ++ String x cc'))
          with (String y acc' ++ nl2 ++ String x cc').
        now rewrite append_assoc3, append_assoc3.
Qed.

Lemma fold_add_common_stripped ccs acc :
  Forall (fun cc => strip cc = cc) ccs -> strip acc = acc ->
  strip (fold_left (fun a cc => add_common cc a) ccs acc)
  = fold_left (fun a cc => add_common cc a) ccs acc.
Proof.
  intros Hccs. revert acc.
  induction Hccs as [|cc ccs Hcc Hccs IH]; intros acc Hacc; auto.
  cbn [fold_left]. apply IH. now apply add_common_stripped.
Qed.

Lemma valid_tabs_no_tabs lang s : tabs s = [] -> valid_tabs lang s = [].
Proof. unfold valid_tabs. now intros ->. Qed.

Lemma fold_process_step_no_tabs h lang steps acc :
  (forall s, In s steps -> tabs s = []) ->
  fold_left (process_step h lang) steps [("", acc)]
  = [("", fold_left (fun a cc => add_common cc a)
            (map (combined_common lang) steps) acc)].
Proof.
  revert acc. induction steps as [|s steps IH]; intros acc Hs; auto.
  cbn [fold_left map]. unfold process_step at 2.
  rewrite valid_tabs_no_tabs by (apply Hs; now left).
  unfold append_common, add_common.
  destruct (truthy (combined_common lang s)); cbn [map fst snd];
    apply IH; intros; apply Hs; now right.
Qed.

Lemma truthy_true s : truthy s = true <-> s <> "".
Proof. destruct s; simpl; split; congruence. Qed.

Lemma join_cons_truthy x l : x <> "" -> join nl2 (x :: l) <> "".
Proof. destruct x; [contradiction|]. destruct l; discriminate. Qed.

Lemma join_cons_glue x l :
  Forall (fun b => b <> "") l -> join nl2 (x :: l) = glue x (join nl2 l).
Proof.
  intros Hl. destruct l as [|y l]; auto.
  inversion Hl; subst. unfold glue.
  assert (H : truthy (join nl2 (y :: l)) = true)
    by now apply truthy_true, join_cons_truthy.
  now rewrite H.
Qed.

Lemma join_app_glue l1 l2 :
  l1 <> [] -> Forall (fun b => b <> "") l2 ->
  join nl2 (l1 ++ l2) = glue (join nl2 l1) (join nl2 l2).
Proof.
  intros Hne Hl2. induction l1 as [|x l1 IH]; [contradiction|].
  destruct l1 as [|y l1].
  - now apply join_cons_glue.
  - change (join nl2 ((x :: y :: l1) ++ l2))
      with (x ++ nl2 ++ join nl2 ((y :: l1) ++ l2)).
    rewrite IH by discriminate.
    change (join nl2 (x :: y :: l1)) with (x ++ nl2 ++ join nl2 (y :: l1)).
    unfold glue. destruct (truthy (join nl2 l2)); auto.
    now rewrite !append_assoc3.
Qed.

Lemma join_clean_blocks l :
  Forall clean_block l -> strip (join nl2 l) = join nl2 l.
Proof.
  induction 1 as [|x l [Hx Hnx] Hl IH]; auto.
  destruct l as [|y l]; auto.
  inversion Hl as [|? ? [_ Hny] _]; subst.
  change (join nl2 (x :: y :: l)) with (x ++ nl2 ++ join nl2 (y :: l)).
  apply strip_joined; auto. now apply join_cons_truthy.
Qed.

Lemma clean_blocks_not_empty l :
  Forall clean_block l -> Forall (fun b => b <> "") l.
Proof. apply Forall_impl. now intros b [_ H]. Qed.

(** Joining step by step, steps without blocks left out, is joining
    all the blocks at once. *)
Lemma join_steps_flat ls :
  Forall (Forall clean_block) ls ->
  join nl2 (filter truthy (map (fun l => strip (join nl2 l)) ls))
  = join nl2 (concat ls).
Proof.
  induction 1 as [|l ls Hl Hls IH]; auto.
  cbn [map filter concat]. rewrite (join_clean_blocks l Hl).
  destruct l as [|x l]; [exact IH|].
  inversion Hl as [|? ? [_ Hnx] _]; subst.
  assert (Ht : truthy (join nl2 (x :: l)) = true)
    by now apply truthy_true, join_cons_truthy.
  rewrite Ht.
  assert (Hc : Forall (fun b => b <> "") (concat ls)).
  { apply Forall_concat. revert Hls. apply Forall_impl.
    apply clean_blocks_not_empty. }
  rewrite join_app_glue by (assumption || discriminate).
  rewrite join_cons_glue.
  - now rewrite IH.
  - apply Forall_forall. intros b Hb. apply filter_In in Hb as [_ Hb].
    now apply truthy_true.
Qed.

(** On these steps the default branch holds a, a blank line and b,
    while the blocks joined with blank lines and trimmed give a, two
    blank lines and b. *)
Lemma default_only_empty_block_counterexample :
  build_branches_for_language hash0 ex_blank_steps "python"
  = [("", "a" ++ nl2 ++ "b")]
  /\ strip (join nl2 (all_common_blocks "python" ex_blank_steps))
     = "a" ++ nl2 ++ nl2 ++ "b"
  /\ (("a" ++ nl2 ++ "b") =? ("a" ++ nl2 ++ nl2 ++ "b")) = false.
Proof. repeat split; vm_compute; reflexivity. Qed.

(** C4, as amended: for a document whose steps have no tabs the builder
    returns exactly one entry, under the default label; its code is the
    blank-line join, in step order, of the common code of the steps
    (the blocks of a step joined with blank lines and trimmed), the
    steps whose common code is empty left out; it is trimmed, and it is
    the blank-line join of all the blocks, trimmed, when every block is
    non-empty and has no white space at either end. *)
Theorem default_only (h : string -> N) (steps : list step) (lang : string) :
  (forall s, In s steps -> tabs s = []) ->
  build_branches_for_language h steps lang
  = [("", join nl2 (filter truthy (map (combined_common lang) steps)))]
  /\ strip (join nl2 (filter truthy (map (combined_common lang) steps)))
     = join nl2 (filter truthy (map (combined_common lang) steps))
  /\ ((forall s b, In s steps -> In b (common_list lang s) -> clean_block b) ->
      build_branches_for_language h steps lang
      = [("", strip (join nl2 (all_common_blocks lang steps)))]).
Proof.
  intros Hs.
  assert (Hcc : Forall (fun cc => strip cc = cc)
                  (map (combined_common lang) steps)).
  { apply Forall_forall. intros cc Hin. apply in_map_iff in Hin.
    destruct Hin as [s [<- _]]. apply combined_common_stripped. }
  pose proof (fold_add_common_join _ "" Hcc eq_refl) as Hj.
  pose proof (fold_add_common_stripped _ "" Hcc eq_refl) as Hst.
  cbn [filter truthy] in Hj. rewrite Hj in Hst.
  assert (Hb : build_branches_for_language h steps lang
               = [("", join nl2 (filter truthy
                                   (map (combined_common lang) steps)))]).
  { unfold build_branches_for_language, branches_after, initial_branches.
    rewrite fold_process_step_no_tabs by assumption.
    cbn [map fst snd]. now rewrite Hj, Hst. }
  split; [exact Hb|]. split; [exact Hst|].
  intros Hclean. rewrite Hb. do 2 f_equal.
  assert (Hall : Forall (Forall clean_block) (map (common_list lang) steps)).
  { apply Forall_forall. intros l Hl. apply in_map_iff in Hl as [s [<- Hin]].
    apply Forall_forall. intros b. now apply Hclean. }
  unfold all_common_blocks. rewrite <- (join_steps_flat _ Hall), map_map.
  change (fun x => strip (join nl2 (common_list lang x)))
    with (combined_common lang).
  now rewrite Hst.
Qed.

(** On three steps without tabs whose blocks are not empty the default
    branch holds all the blocks of the language, joined with blank
    lines. *)
Lemma default_only_witness :
  build_branches_for_language hash0 ex_plain_steps "python"
  = [("", py_print "start" ++ nl2 ++ py_print "more" ++ nl2
          ++ py_print "end")]
  /\ strip (join nl2 (all_common_blocks "python" ex_plain_steps))
     = py_print "start" ++ nl2 ++ py_print "more" ++ nl2 ++ py_print "end".
Proof.
  assert (Ht : forall s, In s ex_plain_steps -> tabs s = [])
    by (intros s [<-|[<-|[<-|[]]]]; reflexivity).
  destruct (default_only hash0 ex_plain_steps "python" Ht) as [_ [_ H]].
  split; [|reflexivity].
  rewrite H; [reflexivity|].
  intros s b [<-|[<-|[<-|[]]]]; simpl;
    intros Hb; repeat (destruct Hb as [<-|Hb]); try contradiction;
    split; (reflexivity || discriminate).
Defined.

(** ** The step container *)

Lemma strip_prefix_spec p s r : strip_prefix p s = Some r <-> s = p ++ r.
Proof.
  revert s. induction p as [|a p IH]; intros s; simpl.
  - split; [now intros [= ->] | now intros ->].
  - destruct s as [|b s].
    + split; discriminate.
    + destruct (Ascii.eqb_spec a b) as [->|Hne].
      * rewrite IH. split; [now intros -> | now intros [= ->]].
      * split; [discriminate | intros [= -> _]; contradiction].
Qed.

Lemma str_partition_spec p s a b :
  str_partition p s = Some (a, b) -> s = a ++ p ++ b.
Proof.
  revert a. induction s as [|c s IH]; intros a; simpl.
  - destruct (strip_prefix p "") eqn:E; [|discriminate].
    intros [= <- <-]. now apply strip_prefix_spec in E.
  - destruct (strip_prefix p (String c s)) eqn:E.
    + intros [= <- <-]. now apply strip_prefix_spec in E.
    + destruct (str_partition p s) as [[a' b']|]; [|discriminate].
      intros [= <- <-]. simpl. f_equal. now apply IH.
Qed.

(** The occurrence that [str_partition] finds is the first one. *)
Lemma str_partition_first p s a r :
  s = a ++ p ++ r ->
  exists a' b', str_partition p s = Some (a', b')
                /\ String.length a' <= String.length a.
Proof.
  revert s. induction a as [|c a IH]; intros s ->.
  - simpl append. exists "", r. split; [|reflexivity].
    assert (E : strip_prefix p (p ++ r) = Some r) by now apply strip_prefix_spec.
    destruct (p ++ r); simpl; simpl in E; now rewrite E.
  - simpl append. simpl str_partition.
    destruct (strip_prefix p (String c (a ++ p ++ r))) eqn:E.
    + exists "", s. split; [reflexivity | simpl; lia].
    + destruct (IH _ eq_refl) as [a' [b' [H Hlen]]]. rewrite H.
      exists (String c a'), b'. split; [reflexivity | simpl; lia].
Qed.

Lemma match_lazy_partition close s :
  match_lazy_until close s = option_map fst (str_partition close s).
Proof.
  induction s as [|c s IH]; simpl.
  - now destruct (strip_prefix close "").
  - destruct (strip_prefix close (String c s)); auto.
    rewrite IH. now destruct (str_partition close s) as [[a b]|].
Qed.

Lemma re_search_partition open close s pre after body rest :
  str_partition open s = Some (pre, after) ->
  str_partition close after = Some (body, rest) ->
  re_search_span open close s = Some body.
Proof.
  intros Ho Hc. revert pre Ho. induction s as [|c s IH]; intros pre; simpl.
  - destruct (strip_prefix open "") eqn:E; [|discriminate].
    intros [= <- <-]. now rewrite match_lazy_partition, Hc.
  - destruct (strip_prefix open (String c s)) eqn:E.
    + intros [= <- <-]. now rewrite match_lazy_partition, Hc.
    + destruct (str_partition open s) as [[a b]|] eqn:E'; [|discriminate].
      intros [= <- <-]. now apply (IH a).
Qed.

(** What the search finds lies between the two markers. *)
Lemma re_search_sound open close s g :
  re_search_span open close s = Some g ->
  exists a c, s = a ++ open ++ g ++ close ++ c.
Proof.
  assert (Hin : forall r, match_lazy_until close r = Some g ->
                          exists c, r = g ++ close ++ c).
  { intros r. rewrite match_lazy_partition.
    destruct (str_partition close r) as [[b c]|] eqn:E; [|discriminate].
    intros [= <-]. exists c. now apply str_partition_spec. }
  induction s as [|x s IH]; simpl.
  - destruct (strip_prefix open "") as [r|] eqn:E; [|discriminate].
    destruct (match_lazy_until close r) eqn:El; [|discriminate].
    intros [= ->]. apply Hin in El as [c ->].
    apply strip_prefix_spec in E. now exists "", c.
  - destruct (strip_prefix open (String x s)) as [r|] eqn:E.
    + destruct (match_lazy_until close r) eqn:El.
      * intros [= ->]. apply Hin in El as [c ->].
        apply strip_prefix_spec in E. now exists "", c.
      * intros H. apply IH in H as [a [c ->]]. now exists (String x a), c.
    + intros H. apply IH in H as [a [c ->]]. now exists (String x a), c.
Qed.

(** Where a span exists the search finds one. *)
Lemma re_search_complete open close a b c :
  exists g, re_search_span open close (a ++ open ++ b ++ close ++ c) = Some g.
Proof.
  assert (Hin : exists g, match_lazy_until close (b ++ close ++ c) = Some g).
  { rewrite match_lazy_partition.
    destruct (str_partition_first close _ b c eq_refl) as [b' [c' [H _]]].
    rewrite H. now exists b'. }
  destruct Hin as [g Hg].
  assert (Ho : strip_prefix open (open ++ b ++ close ++ c)
               = Some (b ++ close ++ c)) by now apply strip_prefix_spec.
  induction a as [|x a IH].
  - simpl append. exists g.
    destruct (open ++ b ++ close ++ c) eqn:E; simpl; simpl in Ho;
      now rewrite Ho, Hg.
  - simpl append. simpl re_search_span.
    destruct (match strip_prefix open (String x (a ++ open ++ b ++ close ++ c))
              with Some r => match_lazy_until close r | None => None end)
      as [g'|]; [now exists g' | exact IH].
Qed.

Lemma strip_prefix_app_short p u v r :
  strip_prefix p (u ++ v) = Some r -> String.length p <= String.length u ->
  exists r', strip_prefix p u = Some r'.
Proof.
  revert u r. induction p as [|a p IH]; intros u r; simpl.
  - intros _ _. now exists u.
  - destruct u as [|b u]; simpl; [intros _ H; lia|].
    destruct (Ascii.eqb a b); [|discriminate].
    intros H Hlen. apply (IH u r); [assumption | lia].
Qed.

Lemma length_append_le p a : String.length p <= String.length (a ++ p).
Proof. induction a as [|c a IH]; simpl; lia. Qed.

(** A first occurrence stays the first one when text is added after it. *)
Lemma str_partition_extend p a r :
  str_partition p (a ++ p) = Some (a, "") ->
  str_partition p (a ++ p ++ r) = Some (a, r).
Proof.
  induction a as [|c a IH]; intros H.
  - simpl append.
    assert (E : strip_prefix p (p ++ r) = Some r) by now apply strip_prefix_spec.
    destruct (p ++ r); simpl; simpl in E; now rewrite E.
  - simpl append in *. simpl str_partition in *.
    destruct (strip_prefix p (String c (a ++ p))) eqn:E; [discriminate|].
    destruct (strip_prefix p (String c (a ++ p ++ r))) eqn:E'.
    + change (String c (a ++ p ++ r)) with (String c a ++ p ++ r) in E'.
      rewrite <- append_assoc3 in E'.
      apply strip_prefix_app_short in E' as [r' E'].
      * simpl append in E'. rewrite E in E'. discriminate.
      * apply length_append_le.
    + destruct (str_partition p (a ++ p)) as [[a' b']|]; [|discriminate].
      injection H as -> ->. now rewrite IH.
Qed.

(** C8: the result is the text strictly inside the first span.  When
    the first opening marker of the text ends [pre ++ steps_open] and
    the first closing marker after it ends [body ++ steps_close], the
    result is [body], whatever follows, later spans included; a text
    with no span gives the empty string, and no error: the function is
    total. *)
Theorem first_span_only :
  (forall pre body rest,
      str_partition steps_open (pre ++ steps_open) = Some (pre, "") ->
      str_partition steps_close (body ++ steps_close) = Some (body, "") ->
      extract_steps_section
        (pre ++ steps_open ++ body ++ steps_close ++ rest) = body)
  /\ (forall content,
        (forall a b c,
            content <> a ++ steps_open ++ b ++ steps_close ++ c) ->
        extract_steps_section content = "").
Proof.
  split.
  - intros pre body rest Hpre Hbody. unfold extract_steps_section.
    rewrite (re_search_partition steps_open steps_close _ pre
               (body ++ steps_close ++ rest) body rest); auto.
    + now apply str_partition_extend.
    + now apply str_partition_extend.
  - intros content Hno. unfold extract_steps_section.
    destruct (re_search_span steps_open steps_close content) as [g|] eqn:E;
      auto.
    apply re_search_sound in E as [a [c E]]. now apply Hno in E.
Qed.

(** A text with two spans gives the inside of the first one; a text
    whose closing marker comes before its opening marker has no span. *)
Lemma first_span_only_witness :
  extract_steps_section
    ("intro " ++ steps_open ++ "one" ++ steps_close
     ++ " between <Steps>two</Steps> end") = "one"
  /\ extract_steps_section "</Steps> closed before it is opened <Steps>" = "".
Proof.
  split.
  - apply (proj1 first_span_only "intro " "one"
             " between <Steps>two</Steps> end"); reflexivity.
  - apply (proj2 first_span_only). intros a b c E.
    destruct (re_search_complete steps_open steps_close a b c) as [g Hg].
    rewrite <- E in Hg. vm_compute in Hg. discriminate.
Defined.

(** ** The code-block extractor *)

Lemma snippets_setdefault_append lang l code cm :
  snippets_of lang (setdefault_append l code cm)
  = (snippets_of lang cm ++ (if l =? lang then [code] else []))%list.
Proof.
  unfold snippets_of, setdefault_append.
  destruct (String.eqb_spec l lang) as [->|Hne].
  - destruct (dict_get lang cm); now rewrite dict_get_set_same.
  - destruct (dict_get l cm); rewrite dict_get_set_other by assumption;
      now rewrite app_nil_r.
Qed.

Lemma dict_mem_setdefault_append lang l code cm :
  dict_mem lang (setdefault_append l code cm) = (l =? lang) || dict_mem lang cm.
Proof.
  unfold setdefault_append. destruct (dict_get l cm); apply dict_mem_set.
Qed.

Lemma extract_block_skip dedent cm m :
  attributed m = false -> extract_block dedent cm m = cm.
Proof.
  unfold attributed, extract_block. destruct (fst m) as [tag|]; auto.
  destruct (truthy tag); auto. simpl. now intros ->.
Qed.

Lemma fold_extract_filter dedent ms cm :
  fold_left (extract_block dedent) ms cm
  = fold_left (extract_block dedent) (filter attributed ms) cm.
Proof.
  revert cm. induction ms as [|m ms IH]; intros cm; auto.
  simpl. destruct (attributed m) eqn:E; simpl.
  - apply IH.
  - rewrite extract_block_skip by assumption. apply IH.
Qed.

Lemma fold_extract_snippets dedent ms cm lang :
  snippets_of lang (fold_left (extract_block dedent) ms cm)
  = (snippets_of lang cm
     ++ map (fun m => strip (dedent (snd m)))
          (filter (attributed_to lang) ms))%list.
Proof.
  revert cm. induction ms as [|m ms IH]; intros cm.
  - simpl. now rewrite app_nil_r.
  - cbn [fold_left filter]. rewrite IH.
    unfold extract_block, attributed_to at 2.
    destruct (fst m) as [tag|]; auto.
    destruct (truthy tag); auto. cbn [negb andb].
    destruct (dict_mem (lower tag) LANGUAGE_CONFIG); auto. cbn [andb].
    rewrite snippets_setdefault_append.
    destruct (lower tag =? lang); cbn [map]; now rewrite <- app_assoc.
Qed.

Lemma fold_extract_mem dedent ms cm lang :
  dict_mem lang (fold_left (extract_block dedent) ms cm)
  = dict_mem lang cm || existsb (attributed_to lang) ms.
Proof.
  revert cm. induction ms as [|m ms IH]; intros cm.
  - simpl. now rewrite orb_false_r.
  - cbn [fold_left existsb]. rewrite IH.
    unfold extract_block, attributed_to at 2.
    destruct (fst m) as [tag|]; auto.
    destruct (truthy tag); auto. cbn [negb andb].
    destruct (dict_mem (lower tag) LANGUAGE_CONFIG); auto. cbn [andb].
    rewrite dict_mem_setdefault_append.
    now destruct (lower tag =? lang), (dict_mem lang cm).
Qed.

(** C6: a fenced block reaches the code map of a language only through
    a fence whose tag, lower-cased, is that language and is in the
    language table.  The matches without tag or with a tag outside the
    table can be left out without changing the code map; the snippets
    added under a language are the codes of the matches attributed to
    it, in order; and a language is a key of the result only if it was
    one before or is a language of the table with such a match. *)
Theorem exclusion_of_untagged_blocks
    (finditer_code_blocks : string -> list fence_match)
    (dedent : string -> string) (text : string)
    (code_map : dict (list string)) :
  extract_code_blocks_into finditer_code_blocks dedent text code_map
  = fold_left (extract_block dedent)
      (filter attributed (finditer_code_blocks text)) code_map
  /\ (forall lang,
        snippets_of lang
          (extract_code_blocks_into finditer_code_blocks dedent text code_map)
        = (snippets_of lang code_map
           ++ map (fun m => strip (dedent (snd m)))
                (filter (attributed_to lang) (finditer_code_blocks text)))%list)
  /\ (forall lang,
        dict_mem lang
          (extract_code_blocks_into finditer_code_blocks dedent text code_map)
        = dict_mem lang code_map
          || (dict_mem lang LANGUAGE_CONFIG
              && existsb (attributed_to lang) (finditer_code_blocks text))).
Proof.
  unfold extract_code_blocks_into. split; [|split].
  - apply fold_extract_filter.
  - intros lang. apply fold_extract_snippets.
  - intros lang. rewrite fold_extract_mem. f_equal.
    destruct (dict_mem lang LANGUAGE_CONFIG) eqn:E; auto.
    induction (finditer_code_blocks text) as [|m ms IH]; auto.
    simpl. rewrite IH, orb_false_r. unfold attributed_to.
    destruct (fst m) as [tag|]; auto.
    destruct (String.eqb_spec (lower tag) lang) as [->|]; [|apply andb_false_r].
    rewrite E. now rewrite andb_false_r.
Qed.

(** ** The executor *)

(** C9: for a language of the table the executor calls the interpreter
    with a timeout of 30 seconds, and with none for bash; when the
    timeout expires it returns, and does not raise, a result with the
    output collected so far and the exit status -1. *)
Theorem executor_timeout_policy (file_path lang : string)
    (config : lang_config) :
  dict_get lang LANGUAGE_CONFIG = Some config ->
  exists handler,
    execute_code_file file_path lang
    = SubprocessRun (exec_cmd config ++ [file_path])%list
        (if lang =? "bash" then None else Some 30%Z) handler
    /\ (forall partial message,
          exists err,
            handler (TimeoutExpired partial message)
            = Returned (mkResult (match partial with
                                  | Some s => s
                                  | None => ""
                                  end) err (-1)%Z))
    /\ (forall subprocess_run partial message,
          subprocess_run (exec_cmd config ++ [file_path])%list
            (if lang =? "bash" then None else Some 30%Z)
          = TimeoutExpired partial message ->
          exists res,
            run_with subprocess_run (execute_code_file file_path lang)
            = Returned res
            /\ output res = match partial with Some s => s | None => "" end
            /\ exit_code res = (-1)%Z).
Proof.
  intros Hcfg. unfold execute_code_file. rewrite Hcfg.
  eexists. split; [reflexivity|]. split.
  - intros partial message. eexists. f_equal. f_equal.
    destruct partial as [[|c s]|]; reflexivity.
  - intros subprocess_run partial message Hrun. unfold run_with.
    rewrite Hrun. eexists. split; [reflexivity|]. split; [|reflexivity].
    destruct partial as [[|c s]|]; reflexivity.
Qed.

(** A Python file is run with a timeout of 30 seconds. *)
Lemma executor_timeout_policy_witness :
  exists handler,
    execute_code_file "temp_code/guide.py" "python"
    = SubprocessRun ["python"; "temp_code/guide.py"] (Some 30%Z) handler
    /\ (forall partial message,
          exists err,
            handler (TimeoutExpired partial message)
            = Returned (mkResult (match partial with
                                  | Some s => s
                                  | None => ""
                                  end) err (-1)%Z))
    /\ (forall subprocess_run partial message,
          subprocess_run ["python"; "temp_code/guide.py"] (Some 30%Z)
          = TimeoutExpired partial message ->
          exists res,
            run_with subprocess_run
              (execute_code_file "temp_code/guide.py" "python")
            = Returned res
            /\ output res = match partial with Some s => s | None => "" end
            /\ exit_code res = (-1)%Z).
Proof.
  apply (executor_timeout_policy "temp_code/guide.py" "python"
           (mkConfig ".py" ["python"])).
  reflexivity.
Defined.

(** ** The branch builder: the labels of the result *)

Lemma no_valid_tabs_no_label lang steps k :
  existsb (fun s => nonempty (valid_tabs lang s)) steps = false ->
  existsb (fun s => dict_mem k (valid_tabs lang s)) steps = false.
Proof.
  induction steps as [|s steps IH]; simpl; auto.
  intros H. apply orb_false_iff in H as [H1 H2]. rewrite IH by assumption.
  destruct (valid_tabs lang s); [reflexivity | discriminate].
Qed.

Lemma tab_label_not_default lang steps k :
  tabs_titled steps = true ->
  existsb (fun s => dict_mem k (valid_tabs lang s)) steps = true ->
  (k =? "") = false.
Proof.
  intros Ht Hk. apply existsb_exists in Hk as [s [Hin Hk]].
  unfold tabs_titled in Ht. rewrite forallb_forall in Ht.
  pose proof (tabs_titled_valid lang s (Ht s Hin)) as H0.
  destruct (String.eqb_spec k ""); auto. subst. congruence.
Qed.

(** X1: in a document whose tabs all have a title, the labels of the
    result are the default label alone when no step has valid tabs for
    the language, and otherwise exactly the names of the valid tabs of
    all the steps. *)
Theorem result_labels (h : string -> N) (steps : list step) (lang k : string) :
  tabs_titled steps = true ->
  dict_mem k (build_branches_for_language h steps lang)
  = if existsb (fun s => nonempty (valid_tabs lang s)) steps
    then existsb (fun s => dict_mem k (valid_tabs lang s)) steps
    else ("" =? k).
Proof.
  unfold build_branches_for_language.
  rewrite (dict_mem_map_values strip).
  induction steps as [|s steps IH] using rev_ind; intros Ht.
  - unfold branches_after, initial_branches. simpl.
    rewrite dict_mem_cons, dict_mem_nil. apply orb_false_r.
  - pose proof Ht as Ht'. unfold tabs_titled in Ht'.
    rewrite forallb_app in Ht'. apply andb_true_iff in Ht' as [Hpre Hs].
    specialize (IH Hpre).
    rewrite branches_after_snoc, process_step_mem, IH, !existsb_app.
    cbn [existsb]. rewrite !orb_false_r.
    destruct (nonempty (valid_tabs lang s)) eqn:En.
    + rewrite orb_true_r.
      destruct (existsb (fun s0 => nonempty (valid_tabs lang s0)) steps) eqn:Ee.
      * destruct (existsb (fun s0 => dict_mem k (valid_tabs lang s0)) steps)
          eqn:Ek.
        -- rewrite (tab_label_not_default lang steps k Hpre Ek).
           now rewrite orb_true_r.
        -- cbn [andb]. now rewrite orb_false_r.
      * rewrite (no_valid_tabs_no_label lang steps k Ee).
        rewrite (String.eqb_sym "" k).
        destruct (k =? ""); cbn [andb negb orb]; now rewrite orb_false_r.
    + rewrite orb_false_r.
      assert (Hk : dict_mem k (valid_tabs lang s) = false)
        by (destruct (valid_tabs lang s); [reflexivity | discriminate]).
      rewrite Hk. now rewrite orb_false_r.
Qed.

(** The labels of the example document with its third step. *)
Lemma result_labels_witness :
  dict_mem "Mac"
    (build_branches_for_language hash0
       (ex_document "python" ++ [ex_step_linux_only]) "python") = true
  /\ dict_mem ""
       (build_branches_for_language hash0
          (ex_document "python" ++ [ex_step_linux_only]) "python") = false.
Proof.
  split.
  - rewrite (result_labels hash0 _ "python" "Mac"); reflexivity.
  - rewrite (result_labels hash0 _ "python" ""); reflexivity.
Defined.

(** ** The branch builder: every code is trimmed *)

Lemma all_stripped_set k v d :
  all_stripped d -> strip v = v -> all_stripped (dict_set k v d).
Proof.
  intros Hd Hv. induction Hd as [|[k' v'] r Hk Hr IH]; simpl.
  - repeat constructor. exact Hv.
  - destruct (k' =? k); constructor; auto.
Qed.

Lemma all_stripped_get k v d :
  all_stripped d -> dict_get k d = Some v -> strip v = v.
Proof.
  intros Hd. induction Hd as [|[k' v'] r Hk Hr IH]; simpl; [discriminate|].
  destruct (k' =? k); auto. now intros [= <-].
Qed.

Lemma valid_tabs_fold_stripped lang l vt :
  all_stripped vt -> all_stripped (fold_left (valid_tabs_add lang) l vt).
Proof.
  revert vt. induction l as [|[t m] r IH]; intros vt Hvt; auto.
  cbn [fold_left valid_tabs_add].
  destruct (dict_get lang m) as [[|x xs]|]; apply IH; auto.
  apply all_stripped_set; auto. apply strip_idem.
Qed.

Lemma valid_tabs_stripped lang s : all_stripped (valid_tabs lang s).
Proof. apply valid_tabs_fold_stripped. constructor. Qed.

Lemma append_common_stripped cc cur :
  all_stripped cur -> all_stripped (append_common cc cur).
Proof.
  intros Hcur. unfold append_common. destruct (truthy cc); auto.
  apply Forall_map. revert Hcur. apply Forall_impl.
  intros bc _. apply strip_idem.
Qed.

Section Stripped.
Variable h : string -> N.

Lemma tab_fold_stripped b c vt nb u :
  strip c = c -> all_stripped nb ->
  all_stripped (fst (fold_left (tab_body h b c) vt (nb, u))).
Proof.
  intros Hc. revert nb u. induction vt as [|[t tc] r IH]; intros nb u Hnb; auto.
  cbn [fold_left tab_body].
  destruct (t =? b); [|destruct (b =? ""); [|destruct (dict_mem b nb)]];
    apply IH; auto; apply all_stripped_set; auto; apply strip_idem.
Qed.

Lemma branch_fold_stripped vt bs nb u :
  all_stripped bs -> all_stripped nb ->
  all_stripped (fst (fold_left (branch_body h vt) bs (nb, u))).
Proof.
  intros Hbs. revert nb u.
  induction Hbs as [|[b c] r Hc Hr IH]; intros nb u Hnb; auto.
  cbn [fold_left]. unfold branch_body at 2. cbn [fst snd].
  rewrite (surjective_pairing (fold_left (tab_body h b c) vt (nb, u))).
  apply IH. now apply tab_fold_stripped.
Qed.

Lemma fresh_fold_stripped cc used vt nb :
  all_stripped vt -> all_stripped nb ->
  all_stripped (fold_left (fresh_body cc used) vt nb).
Proof.
  intros Hvt. revert nb.
  induction Hvt as [|[t tc] r Ht Hr IH]; intros nb Hnb; auto.
  cbn [fold_left fresh_body].
  destruct (negb (pyset_mem t used)); apply IH; auto.
  apply all_stripped_set; auto.
  destruct (truthy cc); [apply strip_idem | exact Ht].
Qed.

Lemma reconcile_stripped cc vt cur :
  all_stripped vt -> all_stripped cur -> all_stripped (reconcile h cc vt cur).
Proof.
  intros Hvt Hcur. unfold reconcile.
  rewrite (surjective_pairing
             (fold_left (branch_body h vt) cur ([], pyset_empty))).
  apply fresh_fold_stripped; auto.
  apply branch_fold_stripped; auto. constructor.
Qed.

Lemma process_step_stripped lang cur s :
  all_stripped cur -> all_stripped (process_step h lang cur s).
Proof.
  intros Hcur. unfold process_step.
  pose proof (valid_tabs_stripped lang s) as Hvt.
  destruct (valid_tabs lang s).
  - now apply append_common_stripped.
  - apply reconcile_stripped; auto. now apply append_common_stripped.
Qed.

Lemma branches_after_stripped lang steps :
  all_stripped (branches_after h lang steps).
Proof.
  unfold branches_after.
  assert (H : all_stripped initial_branches) by (repeat constructor).
  revert H. generalize initial_branches.
  induction steps as [|s steps IH]; intros cur Hcur; auto.
  simpl. apply IH. now apply process_step_stripped.
Qed.

End Stripped.

(** X2: the mapping that the loop over the steps leaves is trimmed
    already, so that the last loop of the builder, which trims every
    branch, changes nothing; every code of the result is free of white
    space at both ends. *)
Theorem final_trim_changes_nothing (h : string -> N) (steps : list step)
    (lang : string) :
  build_branches_for_language h steps lang = branches_after h lang steps
  /\ all_stripped (build_branches_for_language h steps lang).
Proof.
  assert (E : build_branches_for_language h steps lang
              = branches_after h lang steps).
  { unfold build_branches_for_language.
    pose proof (branches_after_stripped h lang steps) as H.
    induction H as [|[b c] r Hc Hr IH]; auto.
    simpl. simpl in Hc. now rewrite Hc, IH. }
  split; [exact E|]. rewrite E. apply branches_after_stripped.
Qed.

(** ** The branch builder: the branches spawned from the default one *)

Section Spawn.
Variable h : string -> N.

Lemma tab_fold_default_other c vt nb u k :
  dict_mem k vt = false ->
  dict_get k (fst (fold_left (tab_body h "" c) vt (nb, u))) = dict_get k nb.
Proof.
  revert nb u. induction vt as [|[t tc] r IH]; intros nb u Hk; auto.
  rewrite dict_mem_cons in Hk. apply orb_false_iff in Hk as [Ht Hk].
  apply String.eqb_neq in Ht.
  cbn [fold_left tab_body]. rewrite String.eqb_refl.
  destruct (t =? ""); rewrite IH by assumption;
    now apply dict_get_set_other.
Qed.

Lemma tab_fold_default_get c vt nb u k t :
  NoDup (keys vt) -> dict_get k vt = Some t -> k <> "" ->
  dict_get k (fst (fold_left (tab_body h "" c) vt (nb, u)))
  = Some (strip (c ++ (if truthy t then nl2 ++ t else ""))).
Proof.
  intros Hnd Hget Hk. revert nb u.
  induction vt as [|[t0 tc0] r IH]; intros nb u; [discriminate|].
  inversion Hnd as [|? ? Hnotin Hnd']; subst.
  simpl in Hget. cbn [fold_left tab_body]. rewrite String.eqb_refl.
  destruct (String.eqb_spec t0 k) as [->|Hne].
  - injection Hget as ->.
    destruct (String.eqb_spec k "") as [|_]; [contradiction|].
    rewrite tab_fold_default_other by now apply dict_mem_false.
    apply dict_get_set_same.
  - destruct (t0 =? ""); now apply IH.
Qed.

Lemma reconcile_get_spawn cc vt c k t :
  NoDup (keys vt) -> dict_get k vt = Some t -> k <> "" ->
  dict_get k (reconcile h cc vt [("", c)])
  = Some (strip (c ++ (if truthy t then nl2 ++ t else ""))).
Proof.
  intros Hnd Hget Hk. unfold reconcile. cbn [fold_left].
  unfold branch_body. cbn [fst snd].
  rewrite (surjective_pairing
             (fold_left (tab_body h "" c) vt ([], pyset_empty))).
  rewrite fresh_fold_get_other.
  - now apply tab_fold_default_get.
  - rewrite tab_fold_used, (dict_get_some_mem _ _ _ Hget), String.eqb_refl.
    cbn [andb orb negb]. now rewrite orb_true_r.
Qed.

Lemma fold_process_step_no_valid lang steps acc :
  existsb (fun s => nonempty (valid_tabs lang s)) steps = false ->
  fold_left (process_step h lang) steps [("", acc)]
  = [("", fold_left (fun a cc => add_common cc a)
            (map (combined_common lang) steps) acc)].
Proof.
  revert acc. induction steps as [|s steps IH]; intros acc Hs; auto.
  cbn [existsb] in Hs. apply orb_false_iff in Hs as [Hs Hr].
  cbn [fold_left map]. unfold process_step at 2.
  destruct (valid_tabs lang s); [|discriminate].
  unfold append_common, add_common.
  destruct (truthy (combined_common lang s)); cbn [map fst snd];
    now apply IH.
Qed.

End Spawn.

Lemma append_empty_r s : s ++ "" = s.
Proof. induction s as [|c s IH]; simpl; [|rewrite IH]; reflexivity. Qed.

Lemma filter_truthy_clean l :
  Forall (fun cc => strip cc = cc) l -> Forall clean_block (filter truthy l).
Proof.
  induction 1 as [|x l Hx Hl IH]; simpl; [constructor|].
  destruct x as [|c x]; simpl; auto.
  constructor; auto. split; [exact Hx | discriminate].
Qed.

(** The code so far, trimmed, followed by the code of a tab. *)
Lemma spawn_code_join l t :
  Forall (fun cc => strip cc = cc) l -> strip t = t ->
  strip (join nl2 (filter truthy l) ++ (if truthy t then nl2 ++ t else ""))
  = join nl2 (filter truthy (l ++ [t])).
Proof.
  intros Hl Ht. pose proof (filter_truthy_clean l Hl) as Hc.
  rewrite filter_app. cbn [filter].
  destruct t as [|c t]; cbn [truthy].
  - rewrite append_empty_r, app_nil_r. now apply join_clean_blocks.
  - destruct (filter truthy l) as [|x f] eqn:E.
    + simpl join. now apply strip_after_blank.
    + inversion Hc as [|? ? [Hx Hnx] Hf]; subst.
      rewrite join_app_glue; [|discriminate|repeat constructor; discriminate].
      change (join nl2 [String c t]) with (String c t).
      unfold glue. cbn [truthy].
      apply strip_joined; auto.
      * now apply (join_clean_blocks (x :: f)).
      * now apply join_cons_truthy.
      * discriminate.
Qed.

(** X3: at the first step that has valid tabs for the language, each of
    these tabs that is not named by the empty string becomes a branch
    that holds, joined with blank lines, the common code of all the
    steps so far, this one included, and then the code of the tab. *)
Theorem first_tabs_spawn (h : string -> N) (lang : string) (pre : list step)
    (s : step) (ttitle tcode : string) :
  existsb (fun s0 => nonempty (valid_tabs lang s0)) pre = false ->
  dict_get ttitle (valid_tabs lang s) = Some tcode ->
  ttitle <> "" ->
  dict_get ttitle (branches_after h lang (pre ++ [s]))
  = Some (join nl2
            (filter truthy
               (map (combined_common lang) (pre ++ [s]) ++ [tcode]))).
Proof.
  intros Hpre Hget Hne.
  assert (Hcc : Forall (fun cc => strip cc = cc)
                  (map (combined_common lang) (pre ++ [s]))).
  { apply Forall_forall. intros cc Hin. apply in_map_iff in Hin.
    destruct Hin as [s0 [<- _]]. apply combined_common_stripped. }
  rewrite <- spawn_code_join;
    [|exact Hcc
     |exact (all_stripped_get _ _ _ (valid_tabs_stripped lang s) Hget)].
  rewrite branches_after_snoc. unfold branches_after, initial_branches.
  rewrite fold_process_step_no_valid by assumption.
  pose proof (fold_add_common_join _ "" Hcc eq_refl) as Hj.
  cbn [filter truthy] in Hj. rewrite <- Hj.
  rewrite map_app, fold_left_app. cbn [map fold_left].
  unfold process_step.
  destruct (valid_tabs lang s) as [|tab vt] eqn:E; [discriminate|].
  rewrite <- E in *.
  replace (append_common (combined_common lang s)
             [("", fold_left (fun a cc => add_common cc a)
                     (map (combined_common lang) pre) "")])
    with [("", add_common (combined_common lang s)
                 (fold_left (fun a cc => add_common cc a)
                    (map (combined_common lang) pre) ""))]
    by (unfold append_common, add_common;
        now destruct (truthy (combined_common lang s))).
  apply reconcile_get_spawn; auto. apply valid_tabs_nodup.
Qed.

(** The branch Mac of the example document. *)
Lemma first_tabs_spawn_witness :
  dict_get "Mac" (branches_after hash0 "python" (ex_document "python"))
  = Some (py_print "start" ++ nl2 ++ py_print "mac").
Proof.
  apply (first_tabs_spawn hash0 "python" [ex_step1 "python"]
           (ex_step2 "python") "Mac" (py_print "mac"));
    [reflexivity | reflexivity | discriminate].
Defined.

(** ** The branch builder: what the result does not depend on *)

Lemma process_step_same h lang cur s1 s2 :
  combined_common lang s1 = combined_common lang s2 ->
  valid_tabs lang s1 = valid_tabs lang s2 ->
  process_step h lang cur s1 = process_step h lang cur s2.
Proof. intros Hc Hv. unfold process_step. now rewrite Hc, Hv. Qed.

Lemma no_code_valid_tabs lang l vt :
  forallb (fun tab : string * dict (list string) =>
             negb (dict_mem lang (snd tab))) l = true ->
  fold_left (valid_tabs_add lang) l vt = vt.
Proof.
  revert vt. induction l as [|[t m] r IH]; intros vt H; auto.
  cbn [forallb snd] in H. apply andb_true_iff in H as [Hm Hr].
  cbn [fold_left valid_tabs_add].
  apply negb_true_iff, dict_get_none in Hm. rewrite Hm. now apply IH.
Qed.

Lemma process_step_no_code h lang cur s :
  no_code_for lang s = true -> process_step h lang cur s = cur.
Proof.
  unfold no_code_for. intros H. apply andb_true_iff in H as [Hc Ht].
  apply negb_true_iff, dict_get_none in Hc.
  unfold process_step, valid_tabs, combined_common, common_list.
  now rewrite no_code_valid_tabs, Hc.
Qed.

(** X4: a step with no code for the language, neither common nor in a
    tab, can be put anywhere in a document, or taken out of it, without
    any change to the branches of that language. *)
Theorem step_without_code (h : string -> N) (lang : string)
    (pre post : list step) (s : step) :
  no_code_for lang s = true ->
  build_branches_for_language h (pre ++ s :: post) lang
  = build_branches_for_language h (pre ++ post) lang.
Proof.
  intros Hs. unfold build_branches_for_language, branches_after.
  rewrite !fold_left_app. cbn [fold_left].
  now rewrite process_step_no_code.
Qed.

(** A step of prose, and a step for another language, in the example
    document. *)
Lemma step_without_code_witness :
  build_branches_for_language hash0
    ([ex_step1 "python"]
     ++ mkStep "Read this" [("bash", ["ls"])] [("Mac", [("bash", ["brew"])])]
     :: [ex_step2 "python"]) "python"
  = build_branches_for_language hash0
      ([ex_step1 "python"] ++ [ex_step2 "python"]) "python".
Proof.
  apply (step_without_code hash0 "python" [ex_step1 "python"]
           [ex_step2 "python"]).
  reflexivity.
Defined.

Lemma dict_get_restrict_map lang m :
  dict_get lang (restrict_map lang m) = dict_get lang m.
Proof.
  unfold restrict_map. destruct (dict_get lang m) eqn:E; auto.
  simpl. now rewrite String.eqb_refl.
Qed.

Lemma valid_tabs_restrict lang l vt :
  fold_left (valid_tabs_add lang)
    (map (fun tab => (fst tab, restrict_map lang (snd tab))) l) vt
  = fold_left (valid_tabs_add lang) l vt.
Proof.
  revert vt. induction l as [|[t m] r IH]; intros vt; auto.
  cbn [map fold_left valid_tabs_add fst snd].
  rewrite dict_get_restrict_map. apply IH.
Qed.

(** X5: the branches of a language depend on the snippets of that
    language alone: the titles of the steps and the snippets of the
    other languages, common or in tabs, do not enter the result. *)
Theorem other_languages_ignored (h : string -> N) (steps : list step)
    (lang : string) :
  build_branches_for_language h (map (restrict_step lang) steps) lang
  = build_branches_for_language h steps lang.
Proof.
  unfold build_branches_for_language, branches_after. f_equal.
  generalize initial_branches.
  induction steps as [|s steps IH]; intros cur; auto.
  cbn [map fold_left]. rewrite IH. f_equal.
  apply process_step_same.
  - unfold combined_common, common_list. cbn [restrict_step common_code].
    now rewrite dict_get_restrict_map.
  - unfold valid_tabs. cbn [restrict_step tabs]. apply valid_tabs_restrict.
Qed.

(** ** The step parser: titles *)

Lemma match_title_here_truthy s t :
  match_title_here s = Some t -> truthy t = true.
Proof.
  unfold match_title_here.
  destruct (strip_prefix "title" s) as [r1|]; [|discriminate].
  destruct (strip_prefix "=" (lstrip r1)) as [r2|]; [|discriminate].
  destruct (strip_prefix dq (lstrip r2)) as [r3|]; [|discriminate].
  destruct (str_partition dq r3) as [[[|c g] b]|]; try discriminate.
  now intros [= <-].
Qed.

Lemma re_search_title_truthy s t :
  re_search_title s = Some t -> truthy t = true.
Proof.
  induction s as [|c s IH]; cbn [re_search_title].
  - destruct (match_title_here "") eqn:E; [|discriminate].
    intros [= <-]. now apply match_title_here_truthy in E.
  - destruct (match_title_here (String c s)) eqn:E; auto.
    intros [= <-]. now apply match_title_here_truthy in E.
Qed.

Lemma attr_title_truthy attrs default :
  truthy default = true -> truthy (attr_title attrs default) = true.
Proof.
  intros Hd. unfold attr_title.
  destruct (re_search_title attrs) eqn:E; auto.
  now apply re_search_title_truthy in E.
Qed.

Lemma truthy_not_empty t : negb (t =? "") = truthy t.
Proof. now destruct t. Qed.

Lemma keys_set_forallb {V : Type} (P : string -> bool) k (v : V) d :
  forallb P (keys d) = true -> P k = true ->
  forallb P (keys (dict_set k v d)) = true.
Proof.
  intros Hd Hk. rewrite keys_dict_set. destruct (dict_mem k d); auto.
  rewrite forallb_app, Hd. simpl. now rewrite Hk.
Qed.

Lemma tab_items_titled fcb dedent ms tabs :
  forallb (fun t => negb (t =? "")) (keys tabs) = true ->
  forallb (fun t => negb (t =? ""))
    (keys (fold_left (tab_item fcb dedent) ms tabs)) = true.
Proof.
  revert tabs. induction ms as [|[a b] ms IH]; intros tabs H; auto.
  cbn [fold_left]. apply IH. unfold tab_item.
  apply keys_set_forallb; auto.
  rewrite truthy_not_empty. now apply attr_title_truthy.
Qed.

Lemma extract_steps_titled fcb dedent steps_content :
  tabs_titled (extract_steps fcb dedent steps_content) = true
  /\ forallb (fun s => truthy (title s))
       (extract_steps fcb dedent steps_content) = true.
Proof.
  unfold extract_steps, tabs_titled.
  induction (finditer_tag "<Step" "</Step>" 0 steps_content)
    as [|[attrs body] ms [IH1 IH2]]; [split; reflexivity|].
  cbn [map forallb]. rewrite IH1, IH2, !andb_true_r.
  unfold parse_step.
  destruct (re_search_span tabs_open tabs_close body); cbn [tabs title].
  - split; [now apply tab_items_titled | now apply attr_title_truthy].
  - split; [reflexivity | now apply attr_title_truthy].
Qed.

(** X6: whatever the text, the parser gives every step and every tab a
    title that is not empty: the title attribute is read only when it
    holds one character at least, and a missing one is replaced by
    untitled_step or untitled_tab. *)
Theorem parsed_titles_not_empty
    (finditer_code_blocks : string -> list fence_match)
    (dedent : string -> string) (steps_content : string) :
  tabs_titled (extract_steps finditer_code_blocks dedent steps_content) = true
  /\ forallb (fun s => truthy (title s))
       (extract_steps finditer_code_blocks dedent steps_content) = true.
Proof.
  destruct (extract_steps_titled finditer_code_blocks dedent steps_content)
    as [Ht Hs].
  split; [exact Ht | exact Hs].
Qed.

(** ** The step parser: languages *)

Lemma extract_block_known dedent cm m :
  known_langs cm = true -> known_langs (extract_block dedent cm m) = true.
Proof.
  intros Hcm. unfold extract_block.
  destruct (fst m) as [tag|]; auto.
  destruct (truthy tag); auto. cbn [negb].
  destruct (dict_mem (lower tag) LANGUAGE_CONFIG) eqn:E; auto.
  unfold setdefault_append, known_langs.
  destruct (dict_get (lower tag) cm); now apply keys_set_forallb.
Qed.

Lemma extract_known fcb dedent text cm :
  known_langs cm = true ->
  known_langs (extract_code_blocks_into fcb dedent text cm) = true.
Proof.
  unfold extract_code_blocks_into. revert cm.
  induction (fcb text) as [|m ms IH]; intros cm Hcm; auto.
  simpl. apply IH. now apply extract_block_known.
Qed.

Lemma forall_values_set {V : Type} (P : V -> Prop) k v (d : dict V) :
  Forall (fun kv => P (snd kv)) d -> P v ->
  Forall (fun kv => P (snd kv)) (dict_set k v d).
Proof.
  intros Hd Hv. induction Hd as [|[k' v'] r Hk Hr IH]; simpl.
  - repeat constructor. exact Hv.
  - destruct (k' =? k); constructor; auto.
Qed.

Lemma forall_values_get {V : Type} (P : V -> Prop) k v (d : dict V) :
  Forall (fun kv => P (snd kv)) d -> dict_get k d = Some v -> P v.
Proof.
  intros Hd. induction Hd as [|[k' v'] r Hk Hr IH]; simpl; [discriminate|].
  destruct (k' =? k); auto. now intros [= <-].
Qed.

Lemma tab_items_known fcb dedent ms tabs :
  Forall (fun tab => known_langs (snd tab) = true) tabs ->
  Forall (fun tab => known_langs (snd tab) = true)
    (fold_left (tab_item fcb dedent) ms tabs).
Proof.
  revert tabs. induction ms as [|[a b] ms IH]; intros tabs H; auto.
  cbn [fold_left]. apply IH. unfold tab_item.
  apply (forall_values_set (fun m => known_langs m = true)); auto.
  apply extract_known.
  destruct (dict_get (attr_title a "untitled_tab") tabs) eqn:E; auto.
  exact (forall_values_get (fun m => known_langs m = true) _ _ _ H E).
Qed.

Lemma parse_step_known fcb dedent m :
  known_langs (common_code (parse_step fcb dedent m)) = true
  /\ Forall (fun tab => known_langs (snd tab) = true)
       (tabs (parse_step fcb dedent m)).
Proof.
  destruct m as [attrs body]. unfold parse_step.
  destruct (re_search_span tabs_open tabs_close body);
    cbn [common_code tabs]; split;
    try (now apply extract_known); try constructor.
  apply tab_items_known. constructor.
Qed.

Lemma pyset_insert_in h x y s : In x (pyset_insert h y s) -> x = y \/ In x s.
Proof.
  induction s as [|z r IH]; simpl.
  - intros [<-|[]]. now left.
  - destruct (h y <=? h z)%N; simpl.
    + intros [<-|[<-|H]]; auto.
    + intros [<-|H]; auto. apply IH in H as [->|H]; auto.
Qed.

Lemma pyset_add_in h x y s : In x (pyset_add h y s) -> x = y \/ In x s.
Proof.
  unfold pyset_add. destruct (pyset_mem y s); auto. apply pyset_insert_in.
Qed.

Lemma pyset_update_in h x l s :
  In x (pyset_update h l s) -> In x l \/ In x s.
Proof.
  unfold pyset_update. revert s.
  induction l as [|y l IH]; intros s; simpl; auto.
  intros H. apply IH in H as [H|H]; auto.
  apply pyset_add_in in H as [->|H]; auto.
Qed.

Lemma all_langs_in h steps lang :
  In lang (all_langs h steps) ->
  exists s, In s steps
            /\ (In lang (keys (common_code s))
                \/ exists tab, In tab (tabs s) /\ In lang (keys (snd tab))).
Proof.
  unfold all_langs.
  assert (G : forall acc,
             In lang
               (fold_left
                  (fun acc s =>
                     fold_left
                       (fun acc' tab => pyset_update h (keys (snd tab)) acc')
                       (tabs s) (pyset_update h (keys (common_code s)) acc))
                  steps acc) ->
             In lang acc
             \/ exists s, In s steps
                  /\ (In lang (keys (common_code s))
                      \/ exists tab, In tab (tabs s)
                                     /\ In lang (keys (snd tab)))).
  { induction steps as [|s steps IH]; intros acc; simpl; auto.
    intros H. apply IH in H as [H|[s' [Hin H]]].
    - assert (T : forall (l : dict (dict (list string))) acc0,
                 In lang
                   (fold_left
                      (fun acc' tab => pyset_update h (keys (snd tab)) acc')
                      l acc0) ->
                 In lang acc0
                 \/ exists tab, In tab l /\ In lang (keys (snd tab))).
      { induction l as [|tab l IHl]; intros acc0; simpl; auto.
        intros H'. apply IHl in H' as [H'|[tab' [Hin' H']]].
        - apply pyset_update_in in H' as [H'|H']; auto.
          right. exists tab. auto.
        - right. exists tab'. auto. }
      apply T in H as [H|[tab [Hin H]]].
      + apply pyset_update_in in H as [H|H]; auto.
        right. exists s. auto.
      + right. exists s. split; auto. right. now exists tab.
    - right. exists s'. auto. }
  intros H. apply G in H as [[]|H]. exact H.
Qed.

(** X7: every language that [main] collects from the parsed steps is a
    language of the table, so that the two lookups that [main] makes for
    it, of the extension and, in the executor, of the command, find
    their key: for such a language the executor goes on to run the
    interpreter. *)
Theorem parsed_languages_known (h : string -> N)
    (finditer_code_blocks : string -> list fence_match)
    (dedent : string -> string) (steps_content file_path : string) :
  Forall
    (fun lang =>
       (exists config, dict_get lang LANGUAGE_CONFIG = Some config)
       /\ exists cmd timeout handler,
            execute_code_file file_path lang
            = SubprocessRun cmd timeout handler)
    (all_langs h (extract_steps finditer_code_blocks dedent steps_content)).
Proof.
  apply Forall_forall. intros lang Hin.
  assert (Hk : dict_mem lang LANGUAGE_CONFIG = true).
  { apply all_langs_in in Hin as [s [Hs H]].
    unfold extract_steps in Hs. apply in_map_iff in Hs as [m [<- _]].
    destruct (parse_step_known finditer_code_blocks dedent m) as [Hc Ht].
    destruct H as [H|[tab [Htab H]]].
    - unfold known_langs in Hc. rewrite forallb_forall in Hc. now apply Hc.
    - rewrite Forall_forall in Ht. apply Ht in Htab.
      unfold known_langs in Htab. rewrite forallb_forall in Htab.
      now apply Htab. }
  unfold dict_mem in Hk. unfold execute_code_file.
  destruct (dict_get lang LANGUAGE_CONFIG) as [config|]; [|discriminate].
  split; [now exists config | now eexists _, _, _].
Qed.

(** ** The step parser: tabs that share a title *)

Lemma bucket_set_same t (m : dict (list string)) tabs :
  bucket t (dict_set t m tabs) = m.
Proof. unfold bucket. now rewrite dict_get_set_same. Qed.

Lemma bucket_set_other t t' (m : dict (list string)) tabs :
  t' <> t -> bucket t (dict_set t' m tabs) = bucket t tabs.
Proof. intros H. unfold bucket. now rewrite dict_get_set_other. Qed.

(** X8: the tabs of a step that bear the same title share one bucket:
    for each language it holds the codes of the attributed blocks of
    these tabs, those of an earlier tab before those of a later one;
    and every tab gives its title a bucket, with or without code. *)
Theorem tabs_with_one_title_merge
    (finditer_code_blocks : string -> list fence_match)
    (dedent : string -> string) (tab_matches : list (string * string))
    (tabs0 : dict (dict (list string))) (ttitle lang : string) :
  snippets_of lang
    (bucket ttitle
       (fold_left (tab_item finditer_code_blocks dedent) tab_matches tabs0))
  = (snippets_of lang (bucket ttitle tabs0)
     ++ flat_map
          (fun tmatch =>
             if attr_title (fst tmatch) "untitled_tab" =? ttitle
             then map (fun m => strip (dedent (snd m)))
                    (filter (attributed_to lang)
                       (finditer_code_blocks (snd tmatch)))
             else [])
          tab_matches)%list
  /\ dict_mem ttitle
       (fold_left (tab_item finditer_code_blocks dedent) tab_matches tabs0)
     = dict_mem ttitle tabs0
       || existsb (fun tmatch => attr_title (fst tmatch) "untitled_tab" =? ttitle)
            tab_matches.
Proof.
  revert tabs0. induction tab_matches as [|[a b] ms IH]; intros tabs0.
  - simpl. now rewrite app_nil_r, orb_false_r.
  - cbn [fold_left flat_map existsb fst snd].
    destruct (IH (tab_item finditer_code_blocks dedent tabs0 (a, b)))
      as [IH1 IH2].
    rewrite IH1, IH2. unfold tab_item. rewrite dict_mem_set.
    destruct (String.eqb_spec (attr_title a "untitled_tab") ttitle)
      as [E|E].
    + rewrite E. rewrite bucket_set_same.
      unfold extract_code_blocks_into. rewrite fold_extract_snippets.
      split; [now rewrite <- app_assoc |].
      cbn [orb]. now rewrite orb_true_r.
    + rewrite bucket_set_other by assumption. split; reflexivity.
Qed.

(** ** The step parser: documents without tabs *)

Lemma str_in_intro p a b : str_in p (a ++ p ++ b) = true.
Proof.
  unfold str_in.
  destruct (str_partition_first p _ a b eq_refl) as [a' [b' [H _]]].
  now rewrite H.
Qed.

Lemma str_in_elim p s : str_in p s = true -> exists a b, s = a ++ p ++ b.
Proof.
  unfold str_in. destruct (str_partition p s) as [[a b]|] eqn:E;
    [|discriminate].
  intros _. exists a, b. now apply str_partition_spec.
Qed.

(** An occurrence in a part of a text is an occurrence in the text. *)
Lemma str_in_part p s a b : str_in p s = true -> str_in p (a ++ s ++ b) = true.
Proof.
  intros H. apply str_in_elim in H as [x [y ->]].
  replace (a ++ (x ++ p ++ y) ++ b) with ((a ++ x) ++ p ++ (y ++ b))
    by now rewrite !append_assoc3.
  apply str_in_intro.
Qed.

Lemma re_search_span_in open close s g :
  re_search_span open close s = Some g -> str_in open s = true.
Proof.
  intros H. apply re_search_sound in H as [a [c ->]]. apply str_in_intro.
Qed.

Lemma match_tag_here_body tag_open tag_close s attrs body len :
  match_tag_here tag_open tag_close s = Some (attrs, body, len) ->
  exists a b, s = a ++ body ++ b.
Proof.
  unfold match_tag_here.
  destruct (strip_prefix tag_open s) as [r|] eqn:E; [|discriminate].
  apply strip_prefix_spec in E. subst s.
  destruct r as [|c r]; [discriminate|].
  destruct (is_word_char c); [discriminate|].
  destruct (str_partition ">" (String c r)) as [[at1 r2]|] eqn:E1;
    [|discriminate].
  destruct (str_partition tag_close r2) as [[bd rest]|] eqn:E2;
    [|discriminate].
  intros [= <- <- _].
  apply str_partition_spec in E1, E2. rewrite E1, E2.
  exists (tag_open ++ at1 ++ ">"), (tag_close ++ rest).
  now rewrite !append_assoc3.
Qed.

(** The body of a match is a part of the text. *)
Lemma finditer_tag_body tag_open tag_close skip s m :
  In m (finditer_tag tag_open tag_close skip s) ->
  exists a b, s = a ++ snd m ++ b.
Proof.
  revert skip. induction s as [|c s IH]; intros skip; simpl; [tauto|].
  destruct skip as [|k].
  - destruct (match_tag_here tag_open tag_close (String c s))
      as [[[attrs body] len]|] eqn:E.
    + intros [<-|H].
      * simpl. now apply match_tag_here_body in E.
      * apply IH in H as [a [b ->]]. now exists (String c a), b.
    + intros H. apply IH in H as [a [b ->]]. now exists (String c a), b.
  - intros H. apply IH in H as [a [b ->]]. now exists (String c a), b.
Qed.

Lemma parsed_without_tabs fcb dedent steps_content s :
  str_in tabs_open steps_content = false ->
  In s (extract_steps fcb dedent steps_content) -> tabs s = [].
Proof.
  intros Hno Hin. unfold extract_steps in Hin.
  apply in_map_iff in Hin as [[attrs body] [<- Hm]].
  apply finditer_tag_body in Hm as [a [b E]]. simpl in E.
  unfold parse_step.
  destruct (re_search_span tabs_open tabs_close body) eqn:Es; auto.
  apply re_search_span_in in Es.
  rewrite E, (str_in_part tabs_open body a b Es) in Hno. discriminate.
Qed.

(** X9: when the text holds no opening marker of a tabs block, the
    steps that the parser gives have no tabs, and the builder returns
    for every language one branch, the default one, with the common
    code of the steps joined with blank lines. *)
Theorem document_without_tabs (h : string -> N)
    (finditer_code_blocks : string -> list fence_match)
    (dedent : string -> string) (steps_content lang : string) :
  str_in tabs_open steps_content = false ->
  build_branches_for_language h
    (extract_steps finditer_code_blocks dedent steps_content) lang
  = [("", join nl2
            (filter truthy
               (map (combined_common lang)
                  (extract_steps finditer_code_blocks dedent
                     steps_content))))].
Proof.
  intros Hno.
  set (steps := extract_steps finditer_code_blocks dedent steps_content).
  assert (Hs : forall s, In s steps -> tabs s = [])
    by (intros s; now apply parsed_without_tabs).
  assert (Hcc : Forall (fun cc => strip cc = cc)
                  (map (combined_common lang) steps)).
  { apply Forall_forall. intros cc Hin. apply in_map_iff in Hin.
    destruct Hin as [s [<- _]]. apply combined_common_stripped. }
  pose proof (fold_add_common_join _ "" Hcc eq_refl) as Hj.
  pose proof (fold_add_common_stripped _ "" Hcc eq_refl) as Hst.
  cbn [filter truthy] in Hj. rewrite Hj in Hst.
  unfold build_branches_for_language, branches_after, initial_branches.
  rewrite fold_process_step_no_tabs by assumption.
  cbn [map fst snd]. now rewrite Hj, Hst.
Qed.

(** Two steps of which the second has no title; the stand-in for the
    matcher of code blocks finds one Python block in every text. *)
Lemma document_without_tabs_witness :
  build_branches_for_language hash0
    (extract_steps (fun _ => [(Some "Python", "pip install x")]) (fun s => s)
       "<Step title=one>first</Step><Step>second</Step>") "python"
  = [("", "pip install x" ++ nl2 ++ "pip install x")].
Proof.
  apply (document_without_tabs hash0
           (fun _ => [(Some "Python", "pip install x")]) (fun s => s)
           "<Step title=one>first</Step><Step>second</Step>" "python").
  reflexivity.
Defined.

(** ** The executor: every way the run can end *)

(** X10: for a language of the table the executor runs the interpreter
    once.  When the process completes, the timeout expires or an
    exception of the class [Exception] is raised, it returns a result
    and does not raise; the result has the exit code 0 only when the
    process completed with return code 0, and then its output and
    error are the trimmed standard output and standard error.  An
    exception outside the class [Exception] is caught by no handler and
    leaves the function.  For a language outside the table the lookup
    of the configuration raises before anything is run. *)
Theorem executor_outcomes (file_path lang : string) :
  (forall config subprocess_run,
      dict_get lang LANGUAGE_CONFIG = Some config ->
      let outcome :=
        subprocess_run (exec_cmd config ++ [file_path])%list
          (if lang =? "bash" then None else Some 30%Z) in
      (forall exception,
          outcome = NotAnException exception ->
          run_with subprocess_run (execute_code_file file_path lang)
          = Raised exception)
      /\ ((forall exception, outcome <> NotAnException exception) ->
          exists res,
            run_with subprocess_run (execute_code_file file_path lang)
            = Returned res
            /\ (exit_code res = 0%Z ->
                exists stdout stderr,
                  outcome = Completed stdout stderr 0%Z
                  /\ output res = strip stdout
                  /\ error res = strip stderr)))
  /\ (dict_mem lang LANGUAGE_CONFIG = false ->
      execute_code_file file_path lang = Finished (Raised "KeyError")).
Proof.
  split.
  - intros config subprocess_run Hcfg outcome. subst outcome.
    unfold execute_code_file, run_with. rewrite Hcfg.
    destruct (subprocess_run (exec_cmd config ++ [file_path])%list
                (if lang =? "bash" then None else Some 30%Z))
      as [out err rc|out msg|msg|exc] eqn:E; split.
    + discriminate.
    + intros _. eexists. split; [reflexivity|]. cbn [exit_code output error].
      intros ->. now exists out, err.
    + discriminate.
    + intros _. eexists. split; [reflexivity|]. cbn [exit_code].
      discriminate.
    + discriminate.
    + intros _. eexists. split; [reflexivity|]. cbn [exit_code].
      discriminate.
    + now intros exception [= <-].
    + intros H. now destruct (H exc).
  - unfold dict_mem, execute_code_file.
    destruct (dict_get lang LANGUAGE_CONFIG); [discriminate | reflexivity].
Qed.

(** A Bash file whose run is interrupted from the keyboard, one whose
    interpreter cannot be started, and a file in a language that is
    not in the table. *)
Lemma executor_outcomes_witness :
  run_with (fun _ _ => NotAnException "KeyboardInterrupt")
    (execute_code_file "temp_code/guide.sh" "bash")
  = Raised "KeyboardInterrupt"
  /\ (exists res,
        run_with (fun _ _ => OtherException "No such file: bash")
          (execute_code_file "temp_code/guide.sh" "bash")
        = Returned res
        /\ (exit_code res = 0%Z ->
            exists stdout stderr,
              OtherException "No such file: bash"
              = Completed stdout stderr 0%Z
              /\ output res = strip stdout
              /\ error res = strip stderr))
  /\ execute_code_file "temp_code/guide.rb" "ruby"
     = Finished (Raised "KeyError").
Proof.
  split; [|split].
  - apply (proj1 (proj1 (executor_outcomes "temp_code/guide.sh" "bash")
                    (mkConfig ".sh" ["bash"])
                    (fun _ _ => NotAnException "KeyboardInterrupt")
                    eq_refl)).
    reflexivity.
  - apply (proj2 (proj1 (executor_outcomes "temp_code/guide.sh" "bash")
                    (mkConfig ".sh" ["bash"])
                    (fun _ _ => OtherException "No such file: bash")
                    eq_refl)).
    intros exception. discriminate.
  - apply (proj2 (executor_outcomes "temp_code/guide.rb" "ruby")).
    reflexivity.
Defined.

(** ** The names of the generated files *)

Lemma length_append a b :
  String.length (a ++ b) = String.length a + String.length b.
Proof. induction a as [|c a IH]; simpl; [|rewrite IH]; reflexivity. Qed.

Lemma append_cancel_l a x y : a ++ x = a ++ y -> x = y.
Proof. induction a as [|c a IH]; simpl; auto. intros [= H]. auto. Qed.

Lemma append_split_length x y u v :
  String.length x = String.length y -> x ++ u = y ++ v -> x = y /\ u = v.
Proof.
  revert y. induction x as [|c x IH]; intros [|d y]; simpl;
    try discriminate; auto.
  intros [= Hl] [= -> H]. destruct (IH y Hl H) as [-> ->]. auto.
Qed.

(** X11: two generated files of one document have the same name only
    if they are for the same branch, were named at the same time and
    have the same extension, the time stamps and the extensions being
    of one length each, as those of [main] are: no branch overwrites
    the file of another one. *)
Theorem out_file_injective
    (base_name b1 b2 ts1 ts2 ext1 ext2 : string) :
  String.length ts1 = String.length ts2 ->
  String.length ext1 = String.length ext2 ->
  out_file base_name b1 ts1 ext1 = out_file base_name b2 ts2 ext2 ->
  b1 = b2 /\ ts1 = ts2 /\ ext1 = ext2.
Proof.
  intros Hts Hext. unfold out_file.
  destruct b1 as [|c1 b1], b2 as [|c2 b2]; cbn [truthy]; intros H;
    apply append_cancel_l in H; apply append_cancel_l in H.
  - apply append_split_length in H as [-> ->]; auto.
  - apply (f_equal String.length) in H.
    repeat (rewrite length_append in H || simpl String.length in H). lia.
  - apply (f_equal String.length) in H.
    repeat (rewrite length_append in H || simpl String.length in H). lia.
  - assert (Hl : String.length (String c1 b1) = String.length (String c2 b2)).
    { apply (f_equal String.length) in H.
      repeat (rewrite length_append in H || simpl String.length in H).
      simpl. lia. }
    apply append_split_length in H as [-> H]; auto.
    apply (append_cancel_l "_") in H.
    apply append_split_length in H as [-> ->]; auto.
Qed.

(** The file of the branch Linux and the file of the branch Mac,
    named in the same second. *)
Lemma out_file_injective_witness :
  (out_file "guide" "Linux" "2026-11-04_10-00-00" ".py"
   =? out_file "guide" "Mac" "2026-11-04_10-00-00" ".py") = false
  /\ ("Linux" = "Linux" /\ "2026-11-04_10-00-00" = "2026-11-04_10-00-00"
      /\ ".py" = ".py").
Proof.
  split; [reflexivity|].
  apply (out_file_injective "guide" "Linux" "Linux"
           "2026-11-04_10-00-00" "2026-11-04_10-00-00" ".py" ".py");
    reflexivity.
Defined.

(** ** The step container: what the section holds *)

Lemma str_partition_before p s a b :
  truthy p = true -> str_partition p s = Some (a, b) -> str_in p a = false.
Proof.
  intros Hp H. destruct (str_in p a) eqn:E; auto.
  apply str_in_elim in E as [x [y ->]].
  pose proof (str_partition_spec _ _ _ _ H) as Hs.
  rewrite append_assoc3, append_assoc3 in Hs.
  destruct (str_partition_first p s x (y ++ p ++ b) Hs) as [a' [b' [H' Hlen]]].
  rewrite H in H'. injection H' as <- <-.
  rewrite !length_append in Hlen. destruct p; [discriminate|].
  simpl in Hlen. lia.
Qed.

Lemma re_search_span_group open close s g :
  re_search_span open close s = Some g ->
  exists r b, str_partition close r = Some (g, b).
Proof.
  assert (Hin : forall r, match_lazy_until close r = Some g ->
                          exists b, str_partition close r = Some (g, b)).
  { intros r. rewrite match_lazy_partition.
    destruct (str_partition close r) as [[g' b]|]; [|discriminate].
    intros [= <-]. now exists b. }
  induction s as [|x s IH]; simpl.
  - destruct (strip_prefix open "") as [r|]; [|discriminate].
    destruct (match_lazy_until close r) eqn:El; [|discriminate].
    intros [= ->]. apply Hin in El as [b El]. now exists r, b.
  - destruct (strip_prefix open (String x s)) as [r|]; auto.
    destruct (match_lazy_until close r) eqn:El; auto.
    intros [= ->]. apply Hin in El as [b El]. now exists r, b.
Qed.

(** X12: the section that [extract_steps_section] returns never holds
    a closing marker of the step container: it ends before the first
    one that follows the opening marker. *)
Theorem section_holds_no_closing_marker (content : string) :
  str_in steps_close (extract_steps_section content) = false.
Proof.
  unfold extract_steps_section.
  destruct (re_search_span steps_open steps_close content) as [g|] eqn:E;
    [|reflexivity].
  apply re_search_span_group in E as [r [b E]].
  now apply (str_partition_before steps_close r g b).
Qed.

(** ** The file finder *)

Section FinderFacts.
Variable os_walk : string -> list (string * list string).
Variable path_join : string -> string -> string.
Variable read_file : string -> option string.

Lemma find_in_file_spec dirpath acc fname path :
  In path (find_in_file path_join read_file dirpath acc fname)
  <-> In path acc \/ kept_file path_join read_file dirpath fname path.
Proof.
  unfold find_in_file, kept_file.
  destruct (str_endswith ".mdx" fname).
  - destruct (read_file (path_join dirpath fname)) as [content|] eqn:Er.
    + destruct (str_in steps_open content) eqn:Eo;
        [destruct (str_in steps_close content) eqn:Ec|]; cbn [andb].
      * rewrite in_app_iff. simpl. split.
        -- intros [H|[<-|[]]]; auto.
           right. repeat split; auto. exists content. auto.
        -- intros [H|[_ [-> _]]]; auto.
      * split; auto. intros [H|[_ [-> [c [Hr [_ Hc]]]]]]; auto.
        congruence.
      * split; auto. intros [H|[_ [-> [c [Hr [Ho _]]]]]]; auto.
        congruence.
    + split; auto. intros [H|[_ [-> [c [Hr _]]]]]; auto. congruence.
  - split; auto. intros [H|[H _]]; auto. discriminate.
Qed.

Lemma find_in_dir_spec dirpath fnames acc path :
  In path (fold_left (find_in_file path_join read_file dirpath) fnames acc)
  <-> In path acc
      \/ exists fname, In fname fnames /\ kept_file path_join read_file dirpath fname path.
Proof.
  revert acc. induction fnames as [|f fnames IH]; intros acc; simpl.
  - split; auto. intros [H|[f [[] _]]]. exact H.
  - rewrite IH, find_in_file_spec. split.
    + intros [[H|H]|[f' [Hin H]]]; auto.
      * right. exists f. auto.
      * right. exists f'. auto.
    + intros [H|[f' [[<-|Hin] H]]]; auto.
      right. exists f'. auto.
Qed.

Lemma find_walk_spec walk acc path :
  In path
    (fold_left
       (fun mdx_files entry =>
          fold_left (find_in_file path_join read_file (fst entry))
            (snd entry) mdx_files)
       walk acc)
  <-> In path acc
      \/ exists dirpath fnames fname,
           In (dirpath, fnames) walk /\ In fname fnames
           /\ kept_file path_join read_file dirpath fname path.
Proof.
  revert acc. induction walk as [|[d fs] walk IH]; intros acc; simpl.
  - split; auto. intros [H|[d [fs [f [[] _]]]]]. exact H.
  - rewrite IH, find_in_dir_spec. split.
    + intros [[H|[f [Hin H]]]|[d' [fs' [f [Hin [Hf H]]]]]]; auto.
      * right. exists d, fs, f. auto.
      * right. exists d', fs', f. auto.
    + intros [H|[d' [fs' [f [Hin [Hf Hk]]]]]]; auto.
      destruct Hin as [E|Hin].
      * injection E as <- <-. left. right. exists f. auto.
      * right. exists d', fs', f. auto.
Qed.

End FinderFacts.

(** A section that is not empty comes from a text with both markers. *)
Lemma section_needs_both_markers content :
  truthy (extract_steps_section content) = true ->
  str_in steps_open content = true /\ str_in steps_close content = true.
Proof.
  unfold extract_steps_section.
  destruct (re_search_span steps_open steps_close content) as [g|] eqn:E;
    [|discriminate].
  intros _. apply re_search_sound in E as [a [c ->]]. split.
  - apply str_in_intro.
  - replace (a ++ steps_open ++ g ++ steps_close ++ c)
      with ((a ++ steps_open ++ g) ++ steps_close ++ c)
      by now rewrite !append_assoc3.
    apply str_in_intro.
Qed.

(** X13: the finder returns exactly the files of the walk whose name
    ends in .mdx, that can be read, and whose content holds both
    markers of the step container; a file that cannot be read is left
    out and the walk goes on.  No file with something to extract is
    missed: a readable .mdx file of the walk whose section is not empty
    is returned. *)
Theorem finder_result
    (os_walk : string -> list (string * list string))
    (path_join : string -> string -> string)
    (read_file : string -> option string) (root_folder : string) :
  (forall path,
      In path (find_mdx_files_with_steps os_walk path_join read_file
                 root_folder)
      <-> exists dirpath fnames fname,
            In (dirpath, fnames) (os_walk root_folder) /\ In fname fnames
            /\ kept_file path_join read_file dirpath fname path)
  /\ (forall dirpath fnames fname content,
        In (dirpath, fnames) (os_walk root_folder) -> In fname fnames ->
        str_endswith ".mdx" fname = true ->
        read_file (path_join dirpath fname) = Some content ->
        truthy (extract_steps_section content) = true ->
        In (path_join dirpath fname)
          (find_mdx_files_with_steps os_walk path_join read_file
             root_folder)).
Proof.
  assert (H : forall path,
      In path (find_mdx_files_with_steps os_walk path_join read_file
                 root_folder)
      <-> exists dirpath fnames fname,
            In (dirpath, fnames) (os_walk root_folder) /\ In fname fnames
            /\ kept_file path_join read_file dirpath fname path).
  { intros path. unfold find_mdx_files_with_steps.
    rewrite find_walk_spec. split; [intros [[]|H]; exact H | auto]. }
  split; [exact H|].
  intros dirpath fnames fname content Hd Hf He Hr Hs.
  apply H. exists dirpath, fnames, fname. repeat split; auto.
  exists content. apply section_needs_both_markers in Hs as [Ho Hc]. auto.
Qed.

(** ** Parser and builder together: branches are kept *)

Lemma kept_branch_next_step h lang pre s X code :
  tabs_titled (pre ++ [s]) = true -> X <> "" ->
  dict_get X (branches_after h lang pre) = Some code ->
  dict_get X (branches_after h lang (pre ++ [s]))
  = Some (match dict_get X (valid_tabs lang s) with
          | Some tcode =>
              strip (add_common (combined_common lang s) code ++ nl2 ++ tcode)
          | None => add_common (combined_common lang s) code
          end).
Proof.
  intros Ht HX Hget.
  unfold tabs_titled in Ht. rewrite forallb_app in Ht.
  apply andb_true_iff in Ht as [Ht Hs]. simpl in Hs.
  rewrite andb_true_r in Hs.
  rewrite branches_after_snoc. unfold process_step.
  destruct (valid_tabs lang s) as [|tab vt] eqn:E.
  - rewrite dict_get_append_common, Hget. reflexivity.
  - assert (H0 : dict_mem "" (branches_after h lang pre) = false).
    { destruct (dict_mem "" (branches_after h lang pre)) eqn:E0; auto.
      pose proof (dict_get_some_mem _ _ _ Hget) as HX'.
      rewrite (default_branch_alone h lang pre X Ht E0 HX) in HX'.
      discriminate. }
    apply reconcile_get_kept.
    + now rewrite dict_mem_append_common.
    + rewrite keys_append_common. apply branches_after_nodup.
    + rewrite <- E. apply valid_tabs_nodup.
    + discriminate.
    + rewrite dict_get_append_common, Hget. reflexivity.
Qed.

(** X14: in the steps that the parser gives for a text, whatever the
    text, a branch with a label that is not empty keeps its code from
    one step to the next: the step adds its common code, and then the
    code of its valid tab of that name if it has one.  The parser
    gives no tab an empty title, which is what the builder needs for
    this. *)
Theorem parsed_branches_are_kept (h : string -> N)
    (finditer_code_blocks : string -> list fence_match)
    (dedent : string -> string) (steps_content lang : string)
    (pre post : list step) (s : step) (X code : string) :
  extract_steps finditer_code_blocks dedent steps_content
  = (pre ++ s :: post)%list ->
  X <> "" ->
  dict_get X (branches_after h lang pre) = Some code ->
  dict_get X (branches_after h lang (pre ++ [s]))
  = Some (match dict_get X (valid_tabs lang s) with
          | Some tcode =>
              strip (add_common (combined_common lang s) code ++ nl2 ++ tcode)
          | None => add_common (combined_common lang s) code
          end).
Proof.
  intros Hparse HX Hget. apply kept_branch_next_step; auto.
  destruct (extract_steps_titled finditer_code_blocks dedent steps_content)
    as [Ht _].
  rewrite Hparse in Ht. unfold tabs_titled in *.
  rewrite forallb_app in *. cbn [forallb] in *.
  apply andb_true_iff in Ht as [Hp Hr].
  apply andb_true_iff in Hr as [Hs _].
  now rewrite Hp, Hs.
Qed.

(** The branch Linux of the text with a tab gets the common code of
    the second step. *)
Lemma parsed_branches_are_kept_witness :
  dict_get "Linux"
    (branches_after hash0 "python"
       ([mkStep "untitled_step" [("python", [""])]
           [("Linux", [("python", ["apt"])])]]
        ++ [mkStep "untitled_step" [("python", ["check"])] []]))
  = Some ("apt" ++ nl2 ++ "check").
Proof.
  apply (parsed_branches_are_kept hash0 ex_one_block (fun s => s)
           ex_text_with_tab "python"
           [mkStep "untitled_step" [("python", [""])]
              [("Linux", [("python", ["apt"])])]]
           []
           (mkStep "untitled_step" [("python", ["check"])] [])
           "Linux" "apt");
    [reflexivity | discriminate | reflexivity].
Defined.
